(** * ts-dns: routing, upstream dispatch and the per-request handler

    A shallow embedding of the Go sources of ts-dns (the query handler
    [ServeDNS], the router [getGroupName], the resolver step [queryDns] and
    the transport callers of package [outbound]) together with the
    properties of the natural-language specification stated over it.

    Go values are modelled as follows.
    - A pointer that may be nil is an [option]; a Go [(value, error)] pair
      whose two halves are independent (a response may come with an error)
      is a pair of options; a pair of which exactly one half is meaningful
      is a sum.
    - Everything the program does to the outside (network, log, cache,
      hosts readers, address set, reply writer) is recorded as an [Event]
      in a chronological trace; what the outside answers is given by an
      environment [Env] of oracles, each of which sees the trace so far.
    - A Go function body is a computation in the monad [M]: it threads the
      state and ends with a value, with a run-time panic, or with the
      process exiting ([log.Fatal]).
    - A Go [map] is a [gmap]; the order in which [range] visits it is not
      fixed by the language and is supplied by the environment. *)

From Stdlib Require Import ZArith NArith.
From stdpp Require Import base strings list gmap fin_maps.

Set Default Proof Using "Type".
Local Open Scope string_scope.

(** ** The execution monad *)

Inductive PanicKind : Type :=
| IndexOutOfRange        (* s[i] with i >= len(s) *)
| SliceBoundsOutOfRange  (* s[:n] with n < 0 or n > len(s) *)
| NilDereference.        (* field access through a nil pointer *)

Inductive Result (A : Type) : Type :=
| Ok (a : A)
| Panicked (p : PanicKind)
| Exited (code : Z).
Arguments Ok {A} a.
Arguments Panicked {A} p.
Arguments Exited {A} code.

Definition M (S A : Type) : Type := S -> Result A * S.

Definition ret {S A} (a : A) : M S A := fun s => (Ok a, s).

Definition bind {S A B} (m : M S A) (k : A -> M S B) : M S B :=
  fun s =>
    match m s with
    | (Ok a, s') => k a s'
    | (Panicked p, s') => (Panicked p, s')
    | (Exited c, s') => (Exited c, s')
    end.

Definition panic {S A} (p : PanicKind) : M S A := fun s => (Panicked p, s).
Definition osExit {S A} (code : Z) : M S A := fun s => (Exited code, s).

(** [defer]: the deferred call runs when the body returns and when it
    panics (the panic then continues to unwind); it does not run when the
    process exits. *)
Definition withDefer {S A} (body : M S A) (deferred : M S unit) : M S A :=
  fun s =>
    match body s with
    | (Ok a, s') =>
        match deferred s' with
        | (Ok _, s'') => (Ok a, s'')
        | (Panicked p, s'') => (Panicked p, s'')
        | (Exited c, s'') => (Exited c, s'')
        end
    | (Panicked p, s') =>
        match deferred s' with
        | (Exited c, s'') => (Exited c, s'')
        | (_, s'') => (Panicked p, s'')
        end
    | (Exited c, s') => (Exited c, s')
    end.

Notation "'let*' x := m 'in' k" := (bind m (fun x => k))
  (at level 10, x pattern, m at level 100, k at level 200).
Notation "m >>> k" := (bind m (fun _ => k))
  (at level 90, right associativity).

(** ** Go's [strings] package *)

Module strings.

(** [strings.HasSuffix(s, suffix)]:
    [len(s) >= len(suffix) && s[len(s)-len(suffix):] == suffix]. *)
Definition HasSuffix (s suffix : string) : bool :=
  (String.length suffix <=? String.length s)%nat &&
  String.eqb
    (String.substring (String.length s - String.length suffix)
                      (String.length suffix) s)
    suffix.

(** [strings.Count(s, substr)] for a non-empty [substr]: the number of
    non-overlapping occurrences, found left to right.  The library
    searches the next occurrence and restarts behind it; here [skip]
    counts the characters of the occurrence just found that are still to
    be stepped over. *)
Fixpoint count_from (skip : nat) (s substr : string) : nat :=
  match s with
  | EmptyString => 0
  | String _ s' =>
      match skip with
      | S k => count_from k s' substr
      | O =>
          if String.prefix substr s
          then S (count_from (String.length substr - 1) s' substr)
          else count_from 0 s' substr
      end
  end.

(** For the empty [substr] the library answers the number of runes plus
    one; strings are byte strings here and the handler only ever counts
    a fixed non-empty marker. *)
Definition Count (s substr : string) : nat :=
  match substr with
  | EmptyString => S (String.length s)
  | _ => count_from 0 s substr
  end.

(** [strings.Contains(s, substr)]: [substr] occurs somewhere in [s]. *)
Fixpoint Contains (s substr : string) : bool :=
  String.prefix substr s ||
  match s with
  | EmptyString => false
  | String _ s' => Contains s' substr
  end.

(** [strings.Split(s, sep)] for a non-empty [sep]: the pieces between the
    non-overlapping occurrences of [sep], found left to right; one piece
    more than there are occurrences.  [skip] is as in [count_from]. *)
Fixpoint split_from (skip : nat) (s sep : string) : list string :=
  match s with
  | EmptyString => [EmptyString]
  | String c s' =>
      match skip with
      | S k => split_from k s' sep
      | O =>
          if String.prefix sep s
          then EmptyString :: split_from (String.length sep - 1) s' sep
          else
            match split_from 0 s' sep with
            | piece :: pieces => String c piece :: pieces
            | [] => [String c EmptyString]
            end
      end
  end.

(** For the empty [sep] the library explodes [s] into its characters;
    the configuration code only splits at a fixed non-empty separator. *)
Definition Split (s sep : string) : list string :=
  match sep with
  | EmptyString => List.map (fun c => String c EmptyString) (String.list_ascii_of_string s)
  | _ => split_from 0 s sep
  end.

(** [strings.Join(elems, sep)]. *)
Definition Join (elems : list string) (sep : string) : string :=
  String.concat sep elems.

End strings.

(** ** DNS messages (package [github.com/miekg/dns]) *)

Definition Error : Type := string.

Definition TypeA : N := 1.
Definition TypeAAAA : N := 28.
Definition ClassINET : N := 1.

Record dnsQuestion : Type := mkQuestion {
  Name : string;
  Qtype : N;
  Qclass : N
}.

(** A resource record: the handler only tells address records ([*dns.A],
    carrying an IPv4 address) from all the others. *)
Inductive dnsRR : Type :=
| RR_A (owner : string) (ttl : N) (A : N)
| RR_other (owner : string) (rrtype : N) (ttl : N) (rdata : string).

Record dnsMsg : Type := mkMsg {
  Id : N;
  Response : bool;
  RecursionDesired : bool;
  Question : list dnsQuestion;
  Answer : list dnsRR;
  Extra : list dnsRR
}.

(** [new(dns.Msg)]. *)
Definition newMsg : dnsMsg :=
  {| Id := 0; Response := false; RecursionDesired := false;
     Question := []; Answer := []; Extra := [] |}.

(** [msg.SetQuestion(name, qtype)], with the fresh identifier [id] the
    library draws. *)
Definition SetQuestion (m : dnsMsg) (id : N) (name : string) (qtype : N) : dnsMsg :=
  {| Id := id; Response := Response m; RecursionDesired := true;
     Question := [mkQuestion name qtype ClassINET];
     Answer := Answer m; Extra := Extra m |}.

(** [r.SetReply(request)]. *)
Definition SetReply (r request : dnsMsg) : dnsMsg :=
  {| Id := Id request; Response := true;
     RecursionDesired := RecursionDesired request;
     Question := match Question request with
                 | q :: _ => [q]
                 | [] => Question r
                 end;
     Answer := Answer r; Extra := Extra r |}.

(** [dns.Client]: the transport name and, for DNS over TLS, the TLS
    configuration. *)
Record tlsConfig : Type := mkTLSConfig {
  ServerName : string;
  InsecureSkipVerify : bool
}.

Record dnsClient : Type := mkClient {
  Net : string;
  TLSConfig : option tlsConfig
}.

(** ** The outside world *)

(** Handles of external objects. *)
Definition proxyDialer : Type := nat. (* a [proxy.Dialer] *)
Definition IPSetRef : Type := nat. (* an [*ipset.IPSet] *)
Definition HttpResponse : Type := nat.

Inductive Conn : Type :=
| RawConn (id : nat)                              (* what [Dial] returns *)
| TLSConn (inner : Conn) (cfg : option tlsConfig). (* [tls.Client(inner, cfg)] *)

Inductive LogLine : Type :=
| LogFatalRecursive                         (* "[CRITICAL] recursive query" *)
| LogMakeRRError (e : Error)                (* "[ERROR] make dns.RR error" *)
| LogMatchHosts (domain : string)           (* "... match hosts" *)
| LogHitCache (domain : string)             (* "... hit cache" *)
| LogMatchGroup (domain group reason : string)
| LogQueryError (e : Error)                 (* "[ERROR] query dns error" *)
| LogIPSetError (ip : N) (e : Error).       (* "[ERROR] add ... to IPSet error" *)

(** One entry of the trace: a call to the outside with what it answered. *)
Inductive Event : Type :=
| EvLog (l : LogLine)
| EvRangeMap (order : list (string * string))
| EvIsBlocked (domain : string) (res : bool * bool)
| EvGenRecord (reader : nat) (name : string) (qtype : N) (res : string)
| EvCacheGet (q : dnsQuestion) (extra : list dnsRR) (res : option dnsMsg)
| EvCacheSet (q : dnsQuestion) (extra : list dnsRR) (r : option dnsMsg)
| EvExchange (c : dnsClient) (m : dnsMsg) (addr : string)
             (res : option dnsMsg * option Error)
| EvDial (d : proxyDialer) (network addr : string) (res : Conn + Error)
| EvWriteMsg (c : Conn) (m : dnsMsg) (res : option Error)
| EvReadMsg (c : Conn) (res : option dnsMsg * option Error)
| EvConnClose (c : Conn)
| EvHttpPost (transport : option proxyDialer) (url contentType : string)
             (body : list N) (res : HttpResponse + Error)
| EvReadAll (resp : HttpResponse) (res : list N + Error)
| EvBodyClose (resp : HttpResponse)
| EvIPSetAdd (set : IPSetRef) (ip : N) (ttl : Z) (res : option Error)
| EvRespWriteMsg (m : dnsMsg)
| EvRespClose.

(** What the outside answers.  Every oracle that stands for something that
    can change while the process runs takes the trace so far. *)
Record Env : Type := mkEnv {
  (* miekg/dns *)
  dnsId : list Event -> N;
  NewRR : string -> dnsRR + Error;
  Pack : dnsMsg -> list N + Error;
  Unpack : list N -> dnsMsg + Error;
  Exchange : list Event -> dnsClient -> dnsMsg -> string ->
             option dnsMsg * option Error;
  WriteMsg : list Event -> Conn -> dnsMsg -> option Error;
  ReadMsg : list Event -> Conn -> option dnsMsg * option Error;
  (* golang.org/x/net/proxy *)
  Dial : list Event -> proxyDialer -> string -> string -> Conn + Error;
  (* net/http, io/ioutil *)
  HttpPost : list Event -> option proxyDialer -> string -> string -> list N ->
             HttpResponse + Error;
  ReadAll : list Event -> HttpResponse -> list N + Error;
  (* the cache behind getDNSCache / setDNSCache *)
  CacheLookup : list Event -> dnsQuestion -> list dnsRR -> option dnsMsg;
  (* ipset *)
  IPSetAdd : list Event -> IPSetRef -> N -> Z -> option Error;
  (* the Go runtime: the choices that fix the order in which the entries of
     a map are visited each time it is ranged over; see [pickOrder] *)
  rangeChoice : list Event -> nat -> nat
}.

(** Process-wide mutable state: the trace and the [Transport] field of the
    package-level [httpClient] of package [outbound] ([None] is Go's nil,
    the default transport). *)
Record World : Type := mkWorld {
  trace : list Event;
  httpClientTransport : option proxyDialer
}.

Definition emit (e : Event) : M World unit :=
  fun w => (Ok tt, mkWorld (trace w ++ [e]) (httpClientTransport w)).

Definition ask {A} (f : list Event -> A) : M World A :=
  fun w => (Ok (f (trace w)), w).

Definition logPrint (l : LogLine) : M World unit := emit (EvLog l).

(** [log.Fatalln]: print, then [os.Exit(1)]. *)
Definition logFatal {A} (l : LogLine) : M World A :=
  emit (EvLog l) >>> osExit 1.

Section IO.
Context (env : Env).

Definition io_Exchange (c : dnsClient) (m : dnsMsg) (addr : string)
  : M World (option dnsMsg * option Error) :=
  let* res := ask (fun h => Exchange env h c m addr) in
  emit (EvExchange c m addr res) >>> ret res.

Definition io_Dial (d : proxyDialer) (network addr : string) : M World (Conn + Error) :=
  let* res := ask (fun h => Dial env h d network addr) in
  emit (EvDial d network addr res) >>> ret res.

Definition io_WriteMsg (c : Conn) (m : dnsMsg) : M World (option Error) :=
  let* res := ask (fun h => WriteMsg env h c m) in
  emit (EvWriteMsg c m res) >>> ret res.

Definition io_ReadMsg (c : Conn) : M World (option dnsMsg * option Error) :=
  let* res := ask (fun h => ReadMsg env h c) in
  emit (EvReadMsg c res) >>> ret res.

Definition io_Close (c : Conn) : M World unit := emit (EvConnClose c).

Definition io_HttpPost (url contentType : string) (body : list N)
  : M World (HttpResponse + Error) :=
  fun w =>
    let res := HttpPost env (trace w) (httpClientTransport w) url contentType body in
    (emit (EvHttpPost (httpClientTransport w) url contentType body res)
     >>> ret res) w.

Definition io_ReadAll (resp : HttpResponse) : M World (list N + Error) :=
  let* res := ask (fun h => ReadAll env h resp) in
  emit (EvReadAll resp res) >>> ret res.

Definition io_IPSetAdd (set : IPSetRef) (ip : N) (ttl : Z) : M World (option Error) :=
  let* res := ask (fun h => IPSetAdd env h set ip ttl) in
  emit (EvIPSetAdd set ip ttl res) >>> ret res.

(** [getDNSCache] and [setDNSCache] of package main: the cache is an
    external collaborator, so the calls are trace events and the answer of
    a lookup comes from the environment. *)
Definition getDNSCache (q : dnsQuestion) (extra : list dnsRR) : M World (option dnsMsg) :=
  let* res := ask (fun h => CacheLookup env h q extra) in
  emit (EvCacheGet q extra res) >>> ret res.

Definition setDNSCache (q : dnsQuestion) (extra : list dnsRR) (r : option dnsMsg)
  : M World unit :=
  emit (EvCacheSet q extra r).

End IO.

(** ** Ranging over a Go map

    The language leaves the iteration order of a map unspecified and lets
    it differ from one loop to the next.  The entries are visited in the
    order [pickOrder] builds: at each step the runtime's choice selects one
    of the entries not yet visited.  Every choice function yields a
    permutation of the entries ([pickOrder_Permutation]) and every
    permutation is yielded by some choice function ([pickOrder_complete]). *)

Fixpoint pickOrder {A} (n : nat) (choice : nat -> nat) (l : list A) : list A :=
  match n with
  | O => []
  | S n' =>
      let i := (choice n' mod length l)%nat in
      match l !! i with
      | Some x => x :: pickOrder n' choice (delete i l)
      | None => []
      end
  end.

Definition rangeMap {V} (choice : nat -> nat) (m : gmap string V) : list (string * V) :=
  pickOrder (size m) choice (map_to_list m).

(** ** Package [outbound] (outbound/caller.go) *)

Module outbound.
Section Outbound.
Context (env : Env).

Definition udpClient : dnsClient := mkClient "udp" None.
Definition tcpClient : dnsClient := mkClient "tcp" None.

Definition errEmpty : Error := "request or server address cannot be empty".

(** [func call(client, request, address, dialer)].  The deferred closure
    closes [proxyConn] when it is not nil, that is on every way out once
    [Dial] has succeeded. *)
Definition call (client : dnsClient) (request : option dnsMsg)
    (address : string) (dialer : option proxyDialer)
  : M World (option dnsMsg * option Error) :=
  match request with
  | None => ret (None, Some errEmpty)
  | Some req =>
      if (length (Question req) <=? 0)%nat || String.eqb address ""
      then ret (None, Some errEmpty)
      else
        match dialer with
        | None => io_Exchange env client req address
        | Some d =>
            let* dialed := io_Dial env d "tcp" address in
            match dialed with
            | inr err => ret (None, Some err)
            | inl proxyConn =>
                withDefer
                  (let conn :=
                     if String.eqb (Net client) "tcp" || String.eqb (Net client) "udp"
                     then proxyConn
                     else TLSConn proxyConn (TLSConfig client) in
                   let* werr := io_WriteMsg env conn req in
                   match werr with
                   | Some err => ret (None, Some err)
                   | None => io_ReadMsg env conn
                   end)
                  (io_Close proxyConn)
            end
        end
  end.

(** The four implementations of the interface [Caller]. *)
Inductive Caller : Type :=
| UDPCaller (Address : string) (Dialer : option proxyDialer)
| TCPCaller (Address : string) (Dialer : option proxyDialer)
| TLSCaller (address : string) (dialer : option proxyDialer) (client : dnsClient)
| DoHCaller (Url : string) (Dialer : option proxyDialer).

Definition NewTLSCaller (address : string) (dialer : option proxyDialer)
    (serverName : string) (skipVerify : bool) : Caller :=
  TLSCaller address dialer
    (mkClient "tcp-tls" (Some (mkTLSConfig serverName skipVerify))).

(** [httpClient.Transport = &http.Transport{Dial: caller.Dialer.Dial}]. *)
Definition setTransport (d : proxyDialer) : M World unit :=
  fun w => (Ok tt, mkWorld (trace w) (Some d)).

(** [func (caller *DoHCaller) Call(request)].  [request.Pack()] reads the
    fields of the message, so a nil [request] panics there. *)
Definition DoHCall (Url : string) (Dialer : option proxyDialer)
    (request : option dnsMsg) : M World (option dnsMsg * option Error) :=
  match request with
  | None => panic NilDereference
  | Some req =>
      match Pack env req with
      | inr err => ret (None, Some err)
      | inl buf =>
          match Dialer with
          | Some d => setTransport d
          | None => ret tt
          end >>>
          let* posted := io_HttpPost env Url "application/dns-message" buf in
          match posted with
          | inr err => ret (None, Some err)
          | inl resp =>
              withDefer
                (let* body := io_ReadAll env resp in
                 match body with
                 | inr err => ret (None, Some err)
                 | inl bytes =>
                     match Unpack env bytes with
                     | inr err => ret (None, Some err)
                     | inl msg => ret (Some msg, None)
                     end
                 end)
                (emit (EvBodyClose resp))
          end
      end
  end.

(** [caller.Call(request)], dispatched on the dynamic type. *)
Definition Call (caller : Caller) (request : option dnsMsg)
  : M World (option dnsMsg * option Error) :=
  match caller with
  | UDPCaller Address Dialer => call udpClient request Address Dialer
  | TCPCaller Address Dialer => call tcpClient request Address Dialer
  | TLSCaller address dialer client => call client request address dialer
  | DoHCaller Url Dialer => DoHCall Url Dialer request
  end.

End Outbound.
End outbound.

(** ** Package [main]: configuration, router, resolver step, handler *)

Module main.

(** One entry of [config.Groups]. *)
Record Group : Type := mkGroup {
  DNS : list string;
  Dialer : option proxyDialer;
  IPSet : option IPSetRef;
  IPSetTTL : Z
}.

(** A hosts reader, through its method [GenRecord(name, qtype)]. *)
Definition HostsReader : Type := string -> N -> string.

(** The package-level configuration, fixed once the process serves. *)
Record Config : Type := mkConfig {
  suffixMap : gmap string string;
  Groups : gmap string Group;
  hostsReaders : list HostsReader;
  GFWChecker_IsBlocked : string -> bool * bool  (* (blocked, ok) *)
}.

(** [var dnsClient = new(dns.Client)]. *)
Definition dnsClient0 : dnsClient := mkClient "" None.

(** The frame of one [ServeDNS] call: the variable [r], which the deferred
    closure reads when the function is left, and the world. *)
Record Frame : Type := mkFrame {
  var_r : option dnsMsg;
  world : World
}.

Definition liftW {A} (m : M World A) : M Frame A :=
  fun f =>
    match m (world f) with
    | (res, w) => (res, mkFrame (var_r f) w)
    end.

Definition set_r (v : option dnsMsg) : M Frame unit :=
  fun f => (Ok tt, mkFrame v (world f)).

Definition get_r : M Frame (option dnsMsg) :=
  fun f => (Ok (var_r f), f).

(** [s[:len(s)-1]]: out of bounds on the empty string. *)
Definition dropLast (s : string) : option string :=
  match s with
  | EmptyString => None
  | _ => Some (String.substring 0 (String.length s - 1) s)
  end.

Definition isSome {A} (o : option A) : bool :=
  match o with Some _ => true | None => false end.

Section Main.
Context (env : Env) (cfg : Config).

(** [func queryDns(question, server, extra, dialer)].  The body yields the
    named results [r], [err] and the variable [proxyConn]; the deferred
    closure then writes the cache and closes the proxy connection. *)
Definition queryDns (question : dnsQuestion) (server : string)
    (extra : list dnsRR) (dialer : option proxyDialer)
  : M World (option dnsMsg * option Error) :=
  let* id := ask (dnsId env) in
  let msg :=
    SetQuestion (mkMsg 0 false false [] [] extra) id (Name question) (Qtype question) in
  let* (r, err, proxyConn) :=
    match dialer with
    | Some d =>
        let* dialed := io_Dial env d "tcp" server in
        match dialed with
        | inr err => ret (None, Some err, None)
        | inl conn =>
            let* werr := io_WriteMsg env conn msg in
            match werr with
            | Some err => ret (None, Some err, Some conn)
            | None =>
                let* (r, err) := io_ReadMsg env conn in
                ret (r, err, Some conn)
            end
        end
    | None =>
        let* (r, err) := io_Exchange env dnsClient0 msg server in
        ret (r, err, None)
    end in
  setDNSCache question extra r >>>
  match proxyConn with
  | Some conn => io_Close conn
  | None => ret tt
  end >>>
  ret (r, err).

(** The loop of [getGroupName] over the entries of [suffixMap], in the
    order the runtime visits them. *)
Fixpoint suffixScan (domain : string) (entries : list (string * string))
  : option (string * string) :=
  match entries with
  | [] => None
  | (suffix, group) :: rest =>
      if strings.HasSuffix domain suffix
      then Some (group, "suffix " ++ suffix)
      else suffixScan domain rest
  end.

(** What [getGroupName] does after the loop found nothing. *)
Definition gfwDecision (domain : string) : M World (string * string) :=
  let res := GFWChecker_IsBlocked cfg domain in
  emit (EvIsBlocked domain res) >>>
  match res with
  | (blocked, true) =>
      if blocked then ret ("dirty", "GFWList") else ret ("clean", "GFWList")
  | (_, false) => ret ("clean", "default")
  end.

(** [getGroupName] for a given visiting order of [suffixMap]. *)
Definition getGroupNameIn (order : list (string * string)) (domain : string)
  : M World (string * string) :=
  match suffixScan domain order with
  | Some res => ret res
  | None => gfwDecision domain
  end.

(** [func getGroupName(domain)]. *)
Definition getGroupName (domain : string) : M World (string * string) :=
  let* order := ask (fun h => rangeMap (rangeChoice env h) (suffixMap cfg)) in
  emit (EvRangeMap order) >>>
  getGroupNameIn order domain.

(** The hosts loop of [ServeDNS]; [true] says the handler returns. *)
Fixpoint hostsLoop (readers : list HostsReader) (i : nat) (question : dnsQuestion)
  : M Frame bool :=
  match readers with
  | [] => ret false
  | reader :: rest =>
      match dropLast (Name question) with
      | None => panic SliceBoundsOutOfRange
      | Some hostname =>
          let rec1 := reader hostname (Qtype question) in
          liftW (emit (EvGenRecord i hostname (Qtype question) rec1)) >>>
          let* record :=
            if String.eqb rec1 ""
            then
              let rec2 := reader (Name question) (Qtype question) in
              liftW (emit (EvGenRecord i (Name question) (Qtype question) rec2)) >>>
              ret rec2
            else ret rec1 in
          if negb (String.eqb record "")
          then
            match NewRR env record with
            | inr err => liftW (logPrint (LogMakeRRError err))
            | inl rr => set_r (Some (mkMsg 0 false false [] [rr] []))
            end >>>
            liftW (logPrint (LogMatchHosts (Name question))) >>>
            ret true
          else hostsLoop rest (S i) question
      end
  end.

(** The loop over [group.DNS]. *)
Fixpoint dispatchLoop (question : dnsQuestion) (extra : list dnsRR)
    (dialer : option proxyDialer) (servers : list string) : M Frame unit :=
  match servers with
  | [] => ret tt
  | server :: rest =>
      let* (r, err) := liftW (queryDns question server extra dialer) in
      set_r r >>>
      match err with
      | Some e => liftW (logPrint (LogQueryError e))
      | None => ret tt
      end >>>
      if isSome r then ret tt
      else dispatchLoop question extra dialer rest
  end.

(** The loop over [r.Answer] that fills the address set. *)
Fixpoint ipsetLoop (set : IPSetRef) (ttl : Z) (answers : list dnsRR) : M World unit :=
  match answers with
  | [] => ret tt
  | RR_A _ _ ip :: rest =>
      let* err := io_IPSetAdd env set ip ttl in
      match err with
      | Some e => logPrint (LogIPSetError ip e)
      | None => ret tt
      end >>>
      ipsetLoop set ttl rest
  | RR_other _ _ _ _ :: rest => ipsetLoop set ttl rest
  end.

(** The part of [ServeDNS] after the cache missed. *)
Definition routeAndDispatch (question : dnsQuestion) (request : dnsMsg)
  : M Frame unit :=
  let* (groupName, reason) := liftW (getGroupName (Name question)) in
  liftW (logPrint (LogMatchGroup (Name question) groupName reason)) >>>
  match Groups cfg !! groupName with
  | Some group =>
      dispatchLoop question (Extra request) (Dialer group) (DNS group) >>>
      match IPSet group with
      | Some set =>
          let* r := get_r in
          match r with
          | None => panic NilDereference
          | Some m => liftW (ipsetLoop set (IPSetTTL group) (Answer m))
          end
      | None => ret tt
      end
  | None => ret tt
  end.

(** The body of [ServeDNS], below the [defer]. *)
Definition ServeDNS_body (request : dnsMsg) : M Frame unit :=
  match Question request with
  | [] => panic IndexOutOfRange
  | question :: _ =>
      if (1 <? strings.Count (Name question) ".ne-")%nat
      then liftW (logFatal LogFatalRecursive)
      else
        let* answered :=
          if N.eqb (Qtype question) TypeA || N.eqb (Qtype question) TypeAAAA
          then hostsLoop (hostsReaders cfg) 0 question
          else ret false in
        if answered then ret tt
        else
          let* cached := liftW (getDNSCache env question (Extra request)) in
          set_r cached >>>
          if isSome cached
          then liftW (logPrint (LogHitCache (Name question)))
          else routeAndDispatch question request
  end.

(** The deferred closure of [ServeDNS]. *)
Definition ServeDNS_deferred (request : dnsMsg) : M Frame unit :=
  let* r := get_r in
  match r with
  | Some m =>
      set_r (Some (SetReply m request)) >>>
      liftW (emit (EvRespWriteMsg (SetReply m request)))
  | None => ret tt
  end >>>
  liftW (emit EvRespClose).

(** [func (_ *handler) ServeDNS(resp, request)]. *)
Definition ServeDNS (request : dnsMsg) : M World unit :=
  fun w =>
    match withDefer (ServeDNS_body request) (ServeDNS_deferred request)
                    (mkFrame None w) with
    | (res, f) => (res, world f)
    end.

End Main.
End main.

(** ** Package [main]: building the configuration ([initConfig]) *)

Module initConfig.

(** [groupStruct] and [cacheStruct], as decoded from the TOML file. *)
Record groupStruct : Type := mkGroupStruct {
  Socks5 : string;
  IPSetName : string;
  IPSetTTL : Z;
  DNS : list string;
  DoT : list string;
  DoH : list string;
  Rules : list string
}.

Record cacheStruct : Type := mkCacheStruct {
  Size : Z;
  MinTTL : Z;
  MaxTTL : Z
}.

(** [config.Group] as [initConfig] fills it; [Matcher] is the rule text
    handed to [matcher.NewABPByText]. *)
Record tsGroup : Type := mkTsGroup {
  Callers : list outbound.Caller;
  Matcher : string;
  IPSet : option IPSetRef;
  IPSetTTL' : Z
}.

(** One turn of the loop over [group.DNS]: the callers it appends. *)
Definition dnsTurn (dialer : option proxyDialer) (addr : string)
  : list outbound.Caller :=
  let '(addr, useTcp) :=
    if strings.HasSuffix addr "/tcp"
    then (String.substring 0 (String.length addr - 4) addr, true)
    else (addr, false) in
  if negb (String.eqb addr "")
  then
    let addr := if negb (strings.Contains addr ":") then addr +:+ ":53" else addr in
    if useTcp
    then [outbound.TCPCaller addr dialer]
    else [outbound.UDPCaller addr dialer]
  else [].

(** One turn of the loop over [group.DoT]; entries read
    [ip:port@serverName]. *)
Definition dotTurn (dialer : option proxyDialer) (addr : string)
  : list outbound.Caller :=
  match strings.Split addr "@" with
  | [addr; serverName] =>
      if negb (String.eqb addr "")
      then
        let addr := if negb (strings.Contains addr ":") then addr +:+ ":853" else addr in
        if negb (String.eqb serverName "")
        then [outbound.NewTLSCaller addr dialer serverName false]
        else []
      else []
  | _ => []
  end.

Definition newline : Ascii.ascii := Ascii.ascii_of_nat 10.

(** [dohReg.MatchString(addr)] for [dohReg] compiled from
    [^https://.+/dns-query$]: the whole text is ["https://"], then one or
    more characters other than newline, then ["/dns-query"]. *)
Definition dohRegMatch (addr : string) : bool :=
  String.prefix "https://" addr &&
  strings.HasSuffix addr "/dns-query" &&
  (19 <=? String.length addr)%nat &&
  negb (existsb (Ascii.eqb newline)
          (String.list_ascii_of_string
             (String.substring 8 (String.length addr - 18) addr))).

(** One turn of the loop over [group.DoH]. *)
Definition dohTurn (dialer : option proxyDialer) (addr : string)
  : list outbound.Caller :=
  if dohRegMatch addr then [outbound.DoHCaller addr dialer] else [].

(** A [for] loop that appends to [callers]. *)
Fixpoint appendLoop (turn : string -> list outbound.Caller)
    (addrs : list string) (callers : list outbound.Caller)
  : list outbound.Caller :=
  match addrs with
  | [] => callers
  | addr :: rest => appendLoop turn rest (callers ++ turn addr)
  end.

(** The callers of one group: the three loops in the order of the
    source. *)
Definition groupCallers (dialer : option proxyDialer) (group : groupStruct)
  : list outbound.Caller :=
  let callers := appendLoop (dnsTurn dialer) (DNS group) [] in
  let callers := appendLoop (dotTurn dialer) (DoT group) callers in
  appendLoop (dohTurn dialer) (DoH group) callers.

(** The body of the loop over [tomlConfig.GroupMap] for one group.
    [socks5] stands for [proxy.SOCKS5("tcp", addr, nil, proxy.Direct)]
    (its error is dropped by the source) and [ipsetNew] for
    [ipset.New(name, "hash:ip", ...)]; an error of the latter is fatal. *)
Definition buildGroup (socks5 : string -> option proxyDialer)
    (ipsetNew : string -> IPSetRef + Error) (group : groupStruct)
  : tsGroup + Error :=
  let dialer :=
    if negb (String.eqb (Socks5 group) "") then socks5 (Socks5 group) else None in
  let callers := groupCallers dialer group in
  let matcher := strings.Join (Rules group) (String newline EmptyString) in
  if negb (String.eqb (IPSetName group) "")
  then
    let ttl := if (0 <? IPSetTTL group)%Z then IPSetTTL group else 0%Z in
    match ipsetNew (IPSetName group) with
    | inl set => inl (mkTsGroup callers matcher (Some set) ttl)
    | inr err => inr err
    end
  else inl (mkTsGroup callers matcher None 0%Z).

(** The loop over [tomlConfig.GroupMap], visiting the entries in [order]:
    [c.GroupMap[name] = tsGroup] for each, unless an address set cannot be
    created. *)
Fixpoint buildGroups (socks5 : string -> option proxyDialer)
    (ipsetNew : string -> IPSetRef + Error)
    (order : list (string * groupStruct)) (acc : gmap string tsGroup)
  : gmap string tsGroup + Error :=
  match order with
  | [] => inl acc
  | (name, group) :: rest =>
      match buildGroup socks5 ipsetNew group with
      | inl g => buildGroups socks5 ipsetNew rest (<[name := g]> acc)
      | inr err => inr err
      end
  end.

(** Arithmetic of [int64], the representation of [time.Duration]. *)
Definition wrap64 (z : Z) : Z :=
  ((z + 2 ^ 63) mod 2 ^ 64 - 2 ^ 63)%Z.

Definition Second : Z := 1000000000.
Definition Minute : Z := 60 * Second.
Definition Hour : Z := 60 * Minute.

(** The cache parameters: [(cacheSize, minTTL, maxTTL)], the durations in
    nanoseconds. *)
Definition cacheParams (c : cacheStruct) : Z * Z * Z :=
  let cacheSize := if negb (Size c =? 0)%Z then Size c else 4096%Z in
  let minTTL :=
    if negb (MinTTL c =? 0)%Z then wrap64 (Second * MinTTL c) else Minute in
  let maxTTL :=
    if negb (MaxTTL c =? 0)%Z then wrap64 (Second * MaxTTL c) else (24 * Hour)%Z in
  let maxTTL := if (maxTTL <? minTTL)%Z then minTTL else maxTTL in
  (cacheSize, minTTL, maxTTL).

(** The final check of [initConfig]; [false] is the fatal exit.  A missing
    key yields the zero [Group], whose caller list is empty. *)
Definition groupsUsable (groupMap : gmap string tsGroup) : bool :=
  negb
    ((size groupMap <=? 0)%nat ||
     (length (from_option Callers [] (groupMap !! "clean")) <=? 0)%nat ||
     (length (from_option Callers [] (groupMap !! "dirty")) <=? 0)%nat).

End initConfig.

(** ** Reading a trace *)

(** The upstream server an event contacts: each call of [queryDns] starts
    with exactly one [Exchange] or one [Dial]. *)
Definition attemptOf (e : Event) : option string :=
  match e with
  | EvExchange _ _ addr _ => Some addr
  | EvDial _ _ addr _ => Some addr
  | _ => None
  end.

Definition cacheWriteOf (e : Event)
  : option (dnsQuestion * list dnsRR * option dnsMsg) :=
  match e with
  | EvCacheSet q extra r => Some (q, extra, r)
  | _ => None
  end.

(** The error a network call reported, if any. *)
Definition ioErrorOf (e : Event) : option Error :=
  match e with
  | EvExchange _ _ _ (_, Some err) => Some err
  | EvDial _ _ _ (inr err) => Some err
  | EvWriteMsg _ _ (Some err) => Some err
  | EvReadMsg _ (_, Some err) => Some err
  | _ => None
  end.

Definition loggedQueryErrorOf (e : Event) : option Error :=
  match e with
  | EvLog (LogQueryError err) => Some err
  | _ => None
  end.

Definition classifierCallOf (e : Event) : option string :=
  match e with
  | EvIsBlocked domain _ => Some domain
  | _ => None
  end.

Definition replyOf (e : Event) : option dnsMsg :=
  match e with
  | EvRespWriteMsg m => Some m
  | _ => None
  end.

Definition genRecordCallOf (e : Event) : option (nat * string) :=
  match e with
  | EvGenRecord i name _ _ => Some (i, name)
  | _ => None
  end.

Definition attempts (tr : list Event) : list string := omap attemptOf tr.
Definition cacheWrites (tr : list Event) := omap cacheWriteOf tr.
Definition ioErrors (tr : list Event) : list Error := omap ioErrorOf tr.
Definition loggedQueryErrors (tr : list Event) : list Error :=
  omap loggedQueryErrorOf tr.
Definition classifierCalls (tr : list Event) : list string :=
  omap classifierCallOf tr.
Definition replies (tr : list Event) : list dnsMsg := omap replyOf tr.
Definition genRecordCalls (tr : list Event) : list (nat * string) :=
  omap genRecordCallOf tr.

(** Events that stand for traffic on the network. *)
Definition isNetworkIO (e : Event) : bool :=
  match e with
  | EvExchange _ _ _ _ | EvDial _ _ _ _ | EvWriteMsg _ _ _ | EvReadMsg _ _
  | EvHttpPost _ _ _ _ _ | EvReadAll _ _ => true
  | _ => false
  end.

(** Events of the cache lookup, of routing and of upstream dispatch. *)
Definition isCacheOrDispatch (e : Event) : bool :=
  match e with
  | EvCacheGet _ _ _ | EvCacheSet _ _ _ | EvRangeMap _ | EvIsBlocked _ _
  | EvIPSetAdd _ _ _ _ => true
  | _ => isNetworkIO e
  end.

(** An environment in which every upstream exchange ends without a
    response. *)
Definition AllFail (env : Env) : Prop :=
  (forall h c m addr, fst (Exchange env h c m addr) = None) /\
  (forall h c, fst (ReadMsg env h c) = None).

(** The pair [getGroupName] returns when it is called with history [h]. *)
Definition routeAt (env : Env) (cfg : main.Config) (h : list Event)
    (domain : string) : string * string :=
  match main.suffixScan domain
          (rangeMap (rangeChoice env h) (main.suffixMap cfg)) with
  | Some res => res
  | None =>
      match main.GFWChecker_IsBlocked cfg domain with
      | (true, true) => ("dirty", "GFWList")
      | (false, true) => ("clean", "GFWList")
      | (_, false) => ("clean", "default")
      end
  end.

(** No hosts reader has a record for the question: the query type is not
    an address type, or every reader answers the empty string for the name
    without its last character and for the name itself. *)
Definition hostsSilent (cfg : main.Config) (question : dnsQuestion) : bool :=
  negb (N.eqb (Qtype question) TypeA || N.eqb (Qtype question) TypeAAAA) ||
  match main.dropLast (Name question) with
  | None => match main.hostsReaders cfg with [] => true | _ => false end
  | Some hostname =>
      forallb
        (fun reader : main.HostsReader =>
           String.eqb (reader hostname (Qtype question)) "" &&
           String.eqb (reader (Name question) (Qtype question)) "")
        (main.hostsReaders cfg)
  end.

(** The request is not valid for a caller: it is absent, it has no
    question, or the caller's address or URL is empty. *)
Definition invalidRequest (caller : outbound.Caller) (request : option dnsMsg)
  : bool :=
  match request with
  | None => true
  | Some req =>
      match Question req with
      | [] => true
      | _ => false
      end ||
      match caller with
      | outbound.UDPCaller a _ | outbound.TCPCaller a _
      | outbound.TLSCaller a _ _ | outbound.DoHCaller a _ => String.eqb a ""
      end
  end.

(** The log line the dispatch loop prints for the error of one attempt. *)
Definition logQueryErr (err : option Error) : list Event :=
  match err with
  | Some e => [EvLog (LogQueryError e)]
  | None => []
  end.

(** The hosts lookups of [n] readers in a row, from reader [i] on, that
    have no record: each is asked for [hostname] and then for [name]. *)
Fixpoint missLookups (i n : nat) (hostname name : string) (qtype : N)
  : list Event :=
  match n with
  | O => []
  | S n' =>
      EvGenRecord i hostname qtype "" :: EvGenRecord i name qtype ""
      :: missLookups (S i) n' hostname name qtype
  end.

(** The hosts lookups of a reader that has a record: for [hostname], and
    for [name] when the first answer was empty. *)
Definition hitLookups (i : nat) (reader : main.HostsReader)
    (hostname name : string) (qtype : N) : list Event :=
  EvGenRecord i hostname qtype (reader hostname qtype) ::
  if String.eqb (reader hostname qtype) ""
  then [EvGenRecord i name qtype (reader name qtype)]
  else [].

(** The record text the handler takes from a reader. *)
Definition recordOf (reader : main.HostsReader) (hostname name : string)
    (qtype : N) : string :=
  if String.eqb (reader hostname qtype) ""
  then reader name qtype
  else reader hostname qtype.

(** Proof steps: unfold the monad and the I/O primitives; bring a trace
    into right-nested form. *)
Ltac run_step :=
  unfold bind, ret, ask, emit, logPrint, setDNSCache, getDNSCache,
    io_Exchange, io_Dial, io_WriteMsg, io_ReadMsg, io_Close, io_IPSetAdd,
    main.liftW, main.set_r, main.get_r, panic;
  simpl.

Ltac flatten_trace := rewrite <- ?app_assoc; simpl.

(** ** What a computation may emit *)

(** States that carry the trace. *)
Class Traced (S : Type) : Type := traceOf : S -> list Event.

#[export] Instance World_Traced : Traced World := trace.

#[export] Instance Frame_Traced : Traced main.Frame :=
  fun f => trace (main.world f).

(** The events of one upstream attempt. *)
Definition isQueryEvent (e : Event) : bool :=
  match e with
  | EvExchange _ _ _ _ | EvDial _ _ _ _ | EvWriteMsg _ _ _ | EvReadMsg _ _
  | EvCacheSet _ _ _ | EvConnClose _ => true
  | _ => false
  end.

(** The events of routing and dispatch. *)
Definition isDispatchEvent (e : Event) : bool :=
  match e with
  | EvLog _ | EvRangeMap _ | EvIsBlocked _ _ | EvIPSetAdd _ _ _ _ => true
  | _ => isQueryEvent e
  end.

(** The events of the body of the handler, below its [defer]. *)
Definition isBodyEvent (e : Event) : bool :=
  match e with
  | EvGenRecord _ _ _ _ | EvCacheGet _ _ _ => true
  | _ => isDispatchEvent e
  end.

Definition connOpenedOf (e : Event) : option Conn :=
  match e with
  | EvDial _ _ _ (inl c) => Some c
  | _ => None
  end.

Definition connClosedOf (e : Event) : option Conn :=
  match e with
  | EvConnClose c => Some c
  | _ => None
  end.

(** The connection a message is written to or read from. *)
Definition connUsedOf (e : Event) : option Conn :=
  match e with
  | EvWriteMsg c _ _ => Some c
  | EvReadMsg c _ => Some c
  | _ => None
  end.

Definition bodyOpenedOf (e : Event) : option HttpResponse :=
  match e with
  | EvHttpPost _ _ _ _ (inl resp) => Some resp
  | _ => None
  end.

Definition bodyClosedOf (e : Event) : option HttpResponse :=
  match e with
  | EvBodyClose resp => Some resp
  | _ => None
  end.

Definition ipsetAddOf (e : Event) : option (IPSetRef * N * Z) :=
  match e with
  | EvIPSetAdd set ip ttl _ => Some (set, ip, ttl)
  | _ => None
  end.

(** An event that starts an exchange with an upstream server. *)
Definition isOutboundStart (e : Event) : bool :=
  match e with
  | EvExchange _ _ _ _ | EvDial _ _ _ _ | EvHttpPost _ _ _ _ _ => true
  | _ => false
  end.

Definition connsOpened (tr : list Event) : list Conn := omap connOpenedOf tr.
Definition connsClosed (tr : list Event) : list Conn := omap connClosedOf tr.
Definition connsUsed (tr : list Event) : list Conn := omap connUsedOf tr.
Definition bodiesOpened (tr : list Event) : list HttpResponse :=
  omap bodyOpenedOf tr.
Definition bodiesClosed (tr : list Event) : list HttpResponse :=
  omap bodyClosedOf tr.
Definition ipsetAdds (tr : list Event) : list (IPSetRef * N * Z) :=
  omap ipsetAddOf tr.

(** [orderlyAt P m s]: run from [s], [m] only appends events that
    satisfy [P], has closed every proxy connection it opened, in the order
    of opening, and does not exit the process. *)
Definition orderlyAt {S A} `{Traced S} (P : Event -> Prop) (m : M S A) (s : S)
  : Prop :=
  exists new,
    traceOf (snd (m s)) = (traceOf s ++ new)%list /\
    Forall P new /\
    connsClosed new = connsOpened new /\
    forall c, fst (m s) <> Exited c.

Definition orderly {S A} `{Traced S} (P : Event -> Prop) (m : M S A) : Prop :=
  forall s, orderlyAt P m s.

(** Events that neither open nor close a proxy connection. *)
Definition connNeutral (e : Event) : Prop :=
  connOpenedOf e = None /\ connClosedOf e = None.

(** The events of a trace that start an exchange with an upstream. *)
Definition outboundStarts (tr : list Event) : list Event :=
  List.filter isOutboundStart tr.

(** The HTTP posts of a trace: transport, URL, content type, body. *)
Definition postOf (e : Event)
  : option (option proxyDialer * string * string * list N) :=
  match e with
  | EvHttpPost transport url contentType body _ =>
      Some (transport, url, contentType, body)
  | _ => None
  end.

Definition posts (tr : list Event) := omap postOf tr.

(** The dials of a trace: dialer, network, address. *)
Definition dialOf (e : Event) : option (proxyDialer * string * string) :=
  match e with
  | EvDial d network addr _ => Some (d, network, addr)
  | _ => None
  end.

Definition dials (tr : list Event) := omap dialOf tr.

(** The direct exchanges of a trace: client and address. *)
Definition exchangeOf (e : Event) : option (dnsClient * string) :=
  match e with
  | EvExchange c _ addr _ => Some (c, addr)
  | _ => None
  end.

Definition exchanges (tr : list Event) := omap exchangeOf tr.

(** The response recorded by the last cache write of a trace. *)
Definition lastResponse (tr : list Event) : option dnsMsg :=
  match last (cacheWrites tr) with
  | Some (_, _, r) => r
  | None => None
  end.

(** The message an event sends to an upstream server. *)
Definition sentOf (e : Event) : option dnsMsg :=
  match e with
  | EvExchange _ m _ _ => Some m
  | EvWriteMsg _ m _ => Some m
  | _ => None
  end.

Definition sent (tr : list Event) : list dnsMsg := omap sentOf tr.

(** The addresses of the address records of an answer section. *)
Definition addressesOf (answers : list dnsRR) : list N :=
  omap (fun rr => match rr with RR_A _ _ ip => Some ip | _ => None end) answers.

(** The connection [call] talks on once the proxy connection [raw] is
    open. *)
Definition wrapConn (client : dnsClient) (raw : Conn) : Conn :=
  if String.eqb (Net client) "tcp" || String.eqb (Net client) "udp"
  then raw
  else TLSConn raw (TLSConfig client).

Definition callerDialer (c : outbound.Caller) : option proxyDialer :=
  match c with
  | outbound.UDPCaller _ d | outbound.TCPCaller _ d
  | outbound.TLSCaller _ d _ | outbound.DoHCaller _ d => d
  end.

Definition callerAddress (c : outbound.Caller) : string :=
  match c with
  | outbound.UDPCaller a _ | outbound.TCPCaller a _
  | outbound.TLSCaller a _ _ | outbound.DoHCaller a _ => a
  end.

(** What a caller built from the configuration looks like: a host with a
    port for the socket transports, a verified named server for TLS, an
    [https://.../dns-query] URL for HTTPS. *)
Definition wellFormedCaller (c : outbound.Caller) : Prop :=
  match c with
  | outbound.UDPCaller a _ | outbound.TCPCaller a _ =>
      a <> "" /\ strings.Contains a ":" = true
  | outbound.TLSCaller a _ client =>
      a <> "" /\ strings.Contains a ":" = true /\
      Net client = "tcp-tls" /\
      exists serverName,
        serverName <> "" /\
        TLSConfig client = Some (mkTLSConfig serverName false)
  | outbound.DoHCaller url _ =>
      exists mid,
        url = "https://" +:+ mid +:+ "/dns-query" /\ mid <> "" /\
        ~ In initConfig.newline (String.list_ascii_of_string mid)
  end.

(** The address [initConfig] registers for a host: the port is appended
    when the text holds no colon. *)
Definition withPort (addr port : string) : string :=
  if strings.Contains addr ":" then addr else addr +:+ ":" +:+ port.

(** The group [buildGroup] yields, if it yields one. *)
Definition builtGroup (socks5 : string -> option proxyDialer)
    (ipsetNew : string -> IPSetRef + Error) (group : initConfig.groupStruct)
  : option initConfig.tsGroup :=
  match initConfig.buildGroup socks5 ipsetNew group with
  | inl g => Some g
  | inr _ => None
  end.

(** ** Sample environments and configurations *)

(** Every upstream call fails, no record text parses, the cache is empty
    and maps are visited in the order of their entry list. *)
Definition envDown : Env :=
  {| dnsId := fun _ => 7%N;
     NewRR := fun _ => inr "bad record";
     Pack := fun _ => inl [];
     Unpack := fun _ => inr "short message";
     Exchange := fun _ _ _ _ => (None, Some "i/o timeout");
     WriteMsg := fun _ _ _ => None;
     ReadMsg := fun _ _ => (None, Some "EOF");
     Dial := fun _ _ _ _ => inr "connection refused";
     HttpPost := fun _ _ _ _ _ => inl 0%nat;
     ReadAll := fun _ _ => inl [];
     CacheLookup := fun _ _ _ => None;
     IPSetAdd := fun _ _ _ _ => None;
     rangeChoice := fun _ _ => 0%nat |}.

(** As [envDown], but the runtime's choice of the first entry of a map
    follows the length of the history. *)
Definition envShuffle : Env :=
  {| dnsId := dnsId envDown; NewRR := NewRR envDown; Pack := Pack envDown;
     Unpack := Unpack envDown; Exchange := Exchange envDown;
     WriteMsg := WriteMsg envDown; ReadMsg := ReadMsg envDown;
     Dial := Dial envDown; HttpPost := HttpPost envDown;
     ReadAll := ReadAll envDown; CacheLookup := CacheLookup envDown;
     IPSetAdd := IPSetAdd envDown;
     rangeChoice := fun h _ => length h |}.

(** Upstream answers every exchange; record texts parse. *)
Definition envUp : Env :=
  {| dnsId := dnsId envDown;
     NewRR := fun s => inl (RR_A s 0 2130706433);
     Pack := Pack envDown; Unpack := Unpack envDown;
     Exchange := fun _ _ m addr =>
       if String.eqb addr "8.8.8.8:53"
       then (None, Some "i/o timeout")
       else (Some (mkMsg (Id m) true true (Question m) [] []), None);
     WriteMsg := WriteMsg envDown; ReadMsg := ReadMsg envDown;
     Dial := Dial envDown; HttpPost := HttpPost envDown;
     ReadAll := ReadAll envDown; CacheLookup := CacheLookup envDown;
     IPSetAdd := IPSetAdd envDown;
     rangeChoice := rangeChoice envDown |}.

Definition sampleSuffixMap : gmap string string :=
  <["com." := "clean"]> (<["google.com." := "dirty"]> ∅).

Definition sampleGroups : gmap string main.Group :=
  <["clean" := main.mkGroup ["8.8.8.8:53"; "1.1.1.1:53"] None (Some 3%nat) 60]>
    (<["dirty" := main.mkGroup ["9.9.9.9:53"] (Some 1%nat) None 0]> ∅).

Definition sampleReader : main.HostsReader :=
  fun name _ => if String.eqb name "router." then "router. 0 IN A 256.0.0.1" else "".

Definition sampleConfig : main.Config :=
  {| main.suffixMap := sampleSuffixMap;
     main.Groups := sampleGroups;
     main.hostsReaders := [sampleReader];
     main.GFWChecker_IsBlocked := fun _ => (true, true) |}.

(** A configuration without suffix rules whose classifier knows nothing. *)
Definition plainConfig : main.Config :=
  {| main.suffixMap := ∅;
     main.Groups := sampleGroups;
     main.hostsReaders := [];
     main.GFWChecker_IsBlocked := fun _ => (false, false) |}.

(** A hosts reader with a record for every name, and a configuration that
    uses it. *)
Definition eagerReader : main.HostsReader :=
  fun _ _ => "host.example. 0 IN A 192.0.2.1".

Definition eagerConfig : main.Config :=
  {| main.suffixMap := ∅;
     main.Groups := sampleGroups;
     main.hostsReaders := [eagerReader];
     main.GFWChecker_IsBlocked := fun _ => (false, false) |}.

(** A configuration whose group ["clean"] lists no server. *)
Definition idleGroupConfig : main.Config :=
  {| main.suffixMap := ∅;
     main.Groups := <["clean" := main.mkGroup [] None None 0]> ∅;
     main.hostsReaders := [];
     main.GFWChecker_IsBlocked := fun _ => (false, false) |}.

Definition world0 : World := mkWorld [] None.

Definition sampleRequest (name : string) (qtype : N) : dnsMsg :=
  mkMsg 5 false true [mkQuestion name qtype ClassINET] [] [].

Definition emptyRequest : dnsMsg := mkMsg 5 false true [] [] [].

(** * Properties *)

Import main.
Local Open Scope list_scope.

(** ** The string functions on examples *)

Example HasSuffix_yes : strings.HasSuffix "www.google.com." "google.com." = true.
Proof. reflexivity. Qed.

Example HasSuffix_longer : strings.HasSuffix "com." "google.com." = false.
Proof. reflexivity. Qed.

Example Count_marker_twice : strings.Count "a.ne-b.ne-c." ".ne-" = 2%nat.
Proof. reflexivity. Qed.

Example Count_no_overlap : strings.Count "aaaa" "aa" = 2%nat.
Proof. reflexivity. Qed.

(** ** Ranging over a map visits a permutation of its entries *)

Lemma pickOrder_Permutation {A} (choice : nat -> nat) (l : list A) :
  pickOrder (length l) choice l ≡ₚ l.
Proof.
  remember (length l) as n eqn:Hn.
  revert l Hn; induction n as [|n IH]; intros l Hn.
  - symmetry in Hn. apply length_zero_iff_nil in Hn. by subst.
  - simpl.
    assert (Hlt : (choice n mod length l < length l)%nat)
      by (apply Nat.mod_upper_bound; lia).
    destruct (lookup_lt_is_Some_2 l _ Hlt) as [x Hx].
    rewrite Hx.
    etrans; [|symmetry; apply (delete_Permutation l _ x Hx)].
    constructor. apply IH.
    rewrite length_delete by eauto. lia.
Qed.

Lemma pickOrder_ext {A} n (c1 c2 : nat -> nat) (l : list A) :
  (forall k, (k < n)%nat -> c1 k = c2 k) ->
  pickOrder n c1 l = pickOrder n c2 l.
Proof.
  revert l. induction n as [|n IH]; intros l Hext; simpl; [done|].
  rewrite (Hext n) by lia.
  destruct (l !! _); [|done].
  f_equal. apply IH. intros k Hk. apply Hext. lia.
Qed.

(** Every order of the entries is one the runtime may choose. *)
Lemma pickOrder_complete {A} (l l' : list A) :
  l' ≡ₚ l -> exists choice, pickOrder (length l) choice l = l'.
Proof.
  revert l. induction l' as [|x l' IH]; intros l Hp.
  - apply Permutation_nil_l in Hp. subst l. by exists (fun _ => 0%nat).
  - assert (Hin : x ∈ l) by (rewrite <- Hp; left).
    apply list_elem_of_lookup in Hin as [i Hi].
    pose proof (lookup_lt_Some _ _ _ Hi) as Hlt.
    assert (Hrest : l' ≡ₚ delete i l).
    { apply (Permutation_cons_inv (a := x)).
      etrans; [exact Hp|]. apply delete_Permutation, Hi. }
    destruct (IH _ Hrest) as [c' Hc'].
    assert (Hlen : length l = S (length (delete i l))).
    { rewrite length_delete by eauto. lia. }
    exists (fun k => if decide (k = length (delete i l)) then i else c' k).
    rewrite Hlen at 1. simpl.
    rewrite decide_True by done.
    rewrite Nat.mod_small by done. rewrite Hi. f_equal.
    rewrite <- Hc'. apply pickOrder_ext.
    intros k Hk. rewrite decide_False by lia. done.
Qed.

Lemma rangeMap_Permutation {V} (choice : nat -> nat) (m : gmap string V) :
  rangeMap choice m ≡ₚ map_to_list m.
Proof.
  unfold rangeMap. rewrite <- (length_map_to_list m).
  apply pickOrder_Permutation.
Qed.

Lemma rangeMap_elem {V} (choice : nat -> nat) (m : gmap string V) k v :
  (k, v) ∈ rangeMap choice m ↔ m !! k = Some v.
Proof. rewrite rangeMap_Permutation. apply elem_of_map_to_list. Qed.

(** ** The handler reads the first question unconditionally *)

(** C10: a request with an empty question list makes [ServeDNS] panic with
    an index out of range at [request.Question[0]]; nothing but the
    deferred close of the response writer happens. *)
Theorem ServeDNS_no_question_panics env cfg request w :
  Question request = [] ->
  ServeDNS env cfg request w =
    (Panicked IndexOutOfRange,
     mkWorld (trace w ++ [EvRespClose]) (httpClientTransport w)).
Proof.
  intros Hq. unfold ServeDNS, withDefer, ServeDNS_body.
  rewrite Hq. reflexivity.
Qed.

Lemma ServeDNS_no_question_panics_witness :
  Question emptyRequest = [] /\
  ServeDNS envDown sampleConfig emptyRequest world0 =
    (Panicked IndexOutOfRange, mkWorld [EvRespClose] None).
Proof.
  split; [reflexivity|].
  apply (ServeDNS_no_question_panics envDown sampleConfig emptyRequest world0).
  reflexivity.
Defined.

(** ** The loop guard *)

(** C9: when the name of the first question holds the marker [".ne-"] more
    than once, [ServeDNS] logs the fatal line and the process exits with
    status 1; the trace gains that log line and nothing else, so no hosts
    lookup, cache lookup, routing or upstream call is made, and not even
    the deferred closure runs. *)
Theorem ServeDNS_loop_guard_fatal env cfg request question rest w :
  Question request = question :: rest ->
  (1 < strings.Count (Name question) ".ne-")%nat ->
  ServeDNS env cfg request w =
    (Exited 1,
     mkWorld (trace w ++ [EvLog LogFatalRecursive]) (httpClientTransport w)).
Proof.
  intros Hq Hc. unfold ServeDNS, withDefer, ServeDNS_body.
  rewrite Hq.
  apply Nat.ltb_lt in Hc. rewrite Hc. reflexivity.
Qed.

Lemma ServeDNS_loop_guard_fatal_witness :
  ServeDNS envUp sampleConfig (sampleRequest "a.ne-b.ne-c." TypeA) world0 =
    (Exited 1, mkWorld [EvLog LogFatalRecursive] None).
Proof.
  apply (ServeDNS_loop_guard_fatal envUp sampleConfig
           (sampleRequest "a.ne-b.ne-c." TypeA)
           (mkQuestion "a.ne-b.ne-c." TypeA ClassINET) [] world0).
  - reflexivity.
  - vm_compute. lia.
Defined.

(** ** The router *)

Lemma suffixScan_Some domain entries res :
  suffixScan domain entries = Some res ->
  exists suffix group,
    (suffix, group) ∈ entries /\
    strings.HasSuffix domain suffix = true /\
    res = (group, "suffix " +:+ suffix).
Proof.
  induction entries as [|[suffix group] rest IH]; simpl; [discriminate|].
  destruct (strings.HasSuffix domain suffix) eqn:Hs.
  - intros [= <-]. exists suffix, group. split; [left|done].
  - intros H. destruct (IH H) as (s & g & Hin & Hm & ->).
    exists s, g. split; [by right|done].
Qed.

Lemma suffixScan_None domain entries :
  suffixScan domain entries = None <->
  forall suffix group,
    (suffix, group) ∈ entries -> strings.HasSuffix domain suffix = false.
Proof.
  induction entries as [|[suffix group] rest IH]; simpl.
  - split; [|done]. intros _ s g Hin. by apply elem_of_nil in Hin.
  - destruct (strings.HasSuffix domain suffix) eqn:Hs.
    + split; [discriminate|]. intros H.
      rewrite (H suffix group) in Hs; [discriminate|left].
    + rewrite IH. split.
      * intros H s g Hin. apply elem_of_cons in Hin as [[= -> ->]|Hin]; eauto.
      * intros H s g Hin. apply (H s g). by right.
Qed.

(** The first entry, in visiting order, whose suffix the domain ends with
    decides. *)
Lemma suffixScan_first domain pre suffix group post :
  Forall (fun e => strings.HasSuffix domain e.1 = false) pre ->
  strings.HasSuffix domain suffix = true ->
  suffixScan domain (pre ++ (suffix, group) :: post) =
    Some (group, "suffix " +:+ suffix).
Proof.
  intros Hpre Hs. induction Hpre as [|[s g] pre Hx _ IH]; simpl.
  - by rewrite Hs.
  - simpl in Hx. by rewrite Hx.
Qed.

Lemma getGroupName_unfold env cfg domain w :
  getGroupName env cfg domain w =
    getGroupNameIn cfg (rangeMap (rangeChoice env (trace w)) (suffixMap cfg))
      domain
      (mkWorld
         (trace w ++
          [EvRangeMap (rangeMap (rangeChoice env (trace w)) (suffixMap cfg))])
         (httpClientTransport w)).
Proof. reflexivity. Qed.

Lemma getGroupName_routeAt env cfg domain w :
  fst (getGroupName env cfg domain w) = Ok (routeAt env cfg (trace w) domain).
Proof.
  rewrite getGroupName_unfold. unfold getGroupNameIn, routeAt, gfwDecision.
  destruct (suffixScan _ _); [reflexivity|].
  unfold bind, emit, ret. simpl.
  by destruct (GFWChecker_IsBlocked cfg domain) as [[] []].
Qed.

(** When the domain ends with at most one configured suffix, the outcome
    of the scan does not depend on the visiting order. *)
Lemma suffixScan_order_irrelevant (m : gmap string string) domain c1 c2 :
  (forall s1 g1 s2 g2,
     m !! s1 = Some g1 -> m !! s2 = Some g2 ->
     strings.HasSuffix domain s1 = true ->
     strings.HasSuffix domain s2 = true -> s1 = s2) ->
  suffixScan domain (rangeMap c1 m) = suffixScan domain (rangeMap c2 m).
Proof.
  intros Huniq.
  destruct (suffixScan domain (rangeMap c1 m)) as [res1|] eqn:H1;
    destruct (suffixScan domain (rangeMap c2 m)) as [res2|] eqn:H2; try done.
  - apply suffixScan_Some in H1 as (s1 & g1 & Hin1 & Hm1 & ->).
    apply suffixScan_Some in H2 as (s2 & g2 & Hin2 & Hm2 & ->).
    apply rangeMap_elem in Hin1, Hin2.
    assert (s1 = s2) as -> by eauto.
    congruence.
  - apply suffixScan_Some in H1 as (s1 & g1 & Hin1 & Hm1 & ->).
    rewrite suffixScan_None in H2.
    apply rangeMap_elem in Hin1.
    rewrite (H2 s1 g1) in Hm1; [done|by apply rangeMap_elem].
  - apply suffixScan_Some in H2 as (s2 & g2 & Hin2 & Hm2 & ->).
    rewrite suffixScan_None in H1.
    apply rangeMap_elem in Hin2.
    rewrite (H1 s2 g2) in Hm2; [done|by apply rangeMap_elem].
Qed.

(** C2, as the code has it: the suffix table is a Go map, so there is no
    configured order.  Routing always returns; the first suffix in the
    order the runtime visits the map wins; two calls with the same suffix
    table and classifier return the same pair whenever the runtime visits
    the map in the same order, and also, whatever the orders, whenever the
    domain ends with at most one configured suffix. *)
Theorem getGroupName_deterministic_up_to_order env1 env2 cfg domain w1 w2 :
  (exists res, fst (getGroupName env1 cfg domain w1) = Ok res) /\
  (forall pre suffix group post,
     rangeMap (rangeChoice env1 (trace w1)) (suffixMap cfg) =
       pre ++ (suffix, group) :: post ->
     Forall (fun e => strings.HasSuffix domain e.1 = false) pre ->
     strings.HasSuffix domain suffix = true ->
     fst (getGroupName env1 cfg domain w1) = Ok (group, "suffix " +:+ suffix)) /\
  (rangeMap (rangeChoice env1 (trace w1)) (suffixMap cfg) =
     rangeMap (rangeChoice env2 (trace w2)) (suffixMap cfg) \/
   (forall s1 g1 s2 g2,
      suffixMap cfg !! s1 = Some g1 -> suffixMap cfg !! s2 = Some g2 ->
      strings.HasSuffix domain s1 = true ->
      strings.HasSuffix domain s2 = true -> s1 = s2) ->
   fst (getGroupName env1 cfg domain w1) =
   fst (getGroupName env2 cfg domain w2)).
Proof.
  split; [|split].
  - eexists. apply getGroupName_routeAt.
  - intros pre suffix group post Ho Hpre Hs.
    rewrite getGroupName_routeAt. unfold routeAt.
    by rewrite Ho, (suffixScan_first _ _ _ _ _ Hpre Hs).
  - intros Hsame. rewrite !getGroupName_routeAt. f_equal. unfold routeAt.
    destruct Hsame as [->|Huniq]; [done|].
    by rewrite (suffixScan_order_irrelevant _ domain
                  (rangeChoice env1 (trace w1)) (rangeChoice env2 (trace w2))
                  Huniq).
Qed.

Lemma getGroupName_deterministic_up_to_order_witness :
  fst (getGroupName envDown sampleConfig "www.google.com." world0) =
    Ok ("dirty", "suffix google.com.") /\
  fst (getGroupName envDown sampleConfig "www.google.com." world0) =
  fst (getGroupName envUp sampleConfig "www.google.com."
         (mkWorld [EvRespClose] None)).
Proof.
  pose proof (getGroupName_deterministic_up_to_order envDown envUp
                sampleConfig "www.google.com." world0
                (mkWorld [EvRespClose] None)) as (_ & Hfirst & Hsame).
  split.
  - apply (Hfirst [] "google.com." "dirty" [("com.", "clean")]).
    + vm_compute. reflexivity.
    + constructor.
    + reflexivity.
  - apply Hsame. left. vm_compute. reflexivity.
Defined.

(** C2 fails as stated: with one suffix table and one classifier, two
    calls in a row for the same domain return different pairs when the
    runtime visits the map in a different order the second time. *)
Lemma getGroupName_two_calls_differ :
  exists a b w1 w2,
    getGroupName envShuffle sampleConfig "www.google.com." world0 = (Ok a, w1) /\
    getGroupName envShuffle sampleConfig "www.google.com." w1 = (Ok b, w2) /\
    a <> b.
Proof.
  exists ("dirty", "suffix google.com."), ("clean", "suffix com.").
  eexists. eexists.
  split; [vm_compute; reflexivity|].
  split; [vm_compute; reflexivity|].
  discriminate.
Qed.

(** C5, as the code has it: a domain that ends with a configured suffix
    [S] is routed, without the classifier being consulted, to the group of
    some configured suffix it ends with, with the reason naming that
    suffix; this is [S] and its group when [S] is the only configured
    suffix the domain ends with. *)
Theorem getGroupName_suffix_rule env cfg domain S G w :
  suffixMap cfg !! S = Some G ->
  strings.HasSuffix domain S = true ->
  exists order S' G',
    suffixMap cfg !! S' = Some G' /\
    strings.HasSuffix domain S' = true /\
    getGroupName env cfg domain w =
      (Ok (G', "suffix " +:+ S'),
       mkWorld (trace w ++ [EvRangeMap order]) (httpClientTransport w)) /\
    classifierCalls [EvRangeMap order] = [] /\
    ((forall S2 G2,
        suffixMap cfg !! S2 = Some G2 ->
        strings.HasSuffix domain S2 = true -> S2 = S) ->
     S' = S /\ G' = G).
Proof.
  intros HS Hm. rewrite getGroupName_unfold.
  set (order := rangeMap (rangeChoice env (trace w)) (suffixMap cfg)).
  unfold getGroupNameIn.
  destruct (suffixScan domain order) as [res|] eqn:Hscan.
  - apply suffixScan_Some in Hscan as (S' & G' & Hin & Hm' & ->).
    apply rangeMap_elem in Hin.
    exists order, S', G'. repeat split; try done.
    + apply (H S' G' Hin Hm').
    + assert (S' = S) as -> by (apply (H S' G' Hin Hm')). congruence.
  - rewrite suffixScan_None in Hscan.
    rewrite (Hscan S G) in Hm; [done|by apply rangeMap_elem].
Qed.

Lemma getGroupName_suffix_rule_witness :
  exists order S' G',
    suffixMap sampleConfig !! S' = Some G' /\
    strings.HasSuffix "example.com." S' = true /\
    getGroupName envDown sampleConfig "example.com." world0 =
      (Ok (G', "suffix " +:+ S'), mkWorld ([] ++ [EvRangeMap order]) None) /\
    classifierCalls [EvRangeMap order] = [] /\
    ((forall S2 G2,
        suffixMap sampleConfig !! S2 = Some G2 ->
        strings.HasSuffix "example.com." S2 = true -> S2 = "com.") ->
     S' = "com." /\ G' = "clean").
Proof.
  apply (getGroupName_suffix_rule envDown sampleConfig "example.com."
           "com." "clean" world0).
  - vm_compute. reflexivity.
  - reflexivity.
Defined.

(** C5 fails as stated: ["com."] is configured for group ["clean"] and the
    domain ends with it, yet the domain is routed to ["dirty"], because it
    also ends with ["google.com."] and the runtime visits that entry
    first. *)
Lemma getGroupName_other_suffix_wins :
  suffixMap sampleConfig !! "com." = Some "clean" /\
  strings.HasSuffix "www.google.com." "com." = true /\
  fst (getGroupName envDown sampleConfig "www.google.com." world0) =
    Ok ("dirty", "suffix google.com.") /\
  fst (getGroupName envDown sampleConfig "www.google.com." world0) <>
    Ok ("clean", "suffix com.").
Proof.
  split; [vm_compute; reflexivity|].
  split; [reflexivity|].
  split; [vm_compute; reflexivity|].
  vm_compute. discriminate.
Qed.

(** C6, as the code has it: for a domain that ends with no configured
    suffix the classifier is consulted exactly once and routing returns
    [("dirty", "GFWList")] when it reports a match and blocked,
    [("clean", "GFWList")] when it reports a match and not blocked, and
    [("clean", "default")] when it reports no match; routing always
    returns. *)
Theorem getGroupName_classifier env cfg domain w :
  (forall suffix group,
     suffixMap cfg !! suffix = Some group ->
     strings.HasSuffix domain suffix = false) ->
  exists order,
    let verdict := GFWChecker_IsBlocked cfg domain in
    let new := [EvRangeMap order; EvIsBlocked domain verdict] in
    getGroupName env cfg domain w =
      (Ok match verdict with
          | (true, true) => ("dirty", "GFWList")
          | (false, true) => ("clean", "GFWList")
          | (_, false) => ("clean", "default")
          end,
       mkWorld (trace w ++ new) (httpClientTransport w)) /\
    classifierCalls new = [domain].
Proof.
  intros Hno. rewrite getGroupName_unfold.
  set (order := rangeMap (rangeChoice env (trace w)) (suffixMap cfg)).
  exists order. simpl. split; [|reflexivity].
  unfold getGroupNameIn.
  assert (suffixScan domain order = None) as ->.
  { apply suffixScan_None. intros s g Hin.
    apply rangeMap_elem in Hin. eauto. }
  unfold gfwDecision, bind, emit, ret. simpl.
  rewrite <- app_assoc. simpl.
  by destruct (GFWChecker_IsBlocked cfg domain) as [[] []].
Qed.

Lemma getGroupName_classifier_witness :
  exists order,
    getGroupName envDown plainConfig "example.org." world0 =
      (Ok ("clean", "default"),
       mkWorld [EvRangeMap order; EvIsBlocked "example.org." (false, false)]
               None).
Proof.
  destruct (getGroupName_classifier envDown plainConfig "example.org." world0)
    as (order & Hrun & _).
  - intros suffix group Hin. vm_compute in Hin. discriminate Hin.
  - exists order. exact Hrun.
Defined.

(** C6 fails as stated: when the classifier reports a match and blocked,
    the reason returned is ["GFWList"], not ["classifier"]. *)
Lemma getGroupName_reason_not_classifier :
  (forall suffix group,
     suffixMap sampleConfig !! suffix = Some group ->
     strings.HasSuffix "example.org." suffix = false) /\
  GFWChecker_IsBlocked sampleConfig "example.org." = (true, true) /\
  fst (getGroupName envDown sampleConfig "example.org." world0) =
    Ok ("dirty", "GFWList") /\
  fst (getGroupName envDown sampleConfig "example.org." world0) <>
    Ok ("dirty", "classifier").
Proof.
  split.
  { intros suffix group Hin.
    apply (rangeMap_elem (fun _ => 0%nat)) in Hin.
    vm_compute in Hin.
    apply elem_of_cons in Hin as [[= -> ->]|Hin]; [reflexivity|].
    apply elem_of_cons in Hin as [[= -> ->]|Hin]; [reflexivity|].
    by apply elem_of_nil in Hin. }
  split; [reflexivity|].
  split; [vm_compute; reflexivity|].
  vm_compute. discriminate.
Qed.

(** ** One upstream attempt: [queryDns] *)

(** [queryDns] always returns.  Its events are the network calls of the
    attempt, then the cache write, then the close of the proxy connection
    if one was opened. *)
Lemma queryDns_run env q server extra dialer w :
  exists r err io closing,
    queryDns env q server extra dialer w =
      (Ok (r, err),
       mkWorld (trace w ++ io ++ [EvCacheSet q extra r] ++ closing)
               (httpClientTransport w)) /\
    attempts io = [server] /\
    cacheWrites io = [] /\
    ioErrors io = match err with Some e => [e] | None => [] end /\
    loggedQueryErrors io = [] /\
    attempts closing = [] /\
    cacheWrites closing = [] /\
    ioErrors closing = [] /\
    loggedQueryErrors closing = [].
Proof.
  unfold queryDns. run_step.
  set (msg := SetQuestion _ _ _ _).
  destruct dialer as [d|]; simpl.
  - destruct (Dial env (trace w) d "tcp" server) as [conn|e] eqn:Hd; simpl.
    + destruct (WriteMsg env _ conn msg) as [e|] eqn:Hw; simpl.
      * exists None, (Some e),
          [EvDial d "tcp" server (inl conn); EvWriteMsg conn msg (Some e)],
          [EvConnClose conn].
        flatten_trace. repeat split.
      * destruct (ReadMsg env _ conn) as [r err] eqn:Hr; simpl.
        exists r, err,
          [EvDial d "tcp" server (inl conn); EvWriteMsg conn msg None;
           EvReadMsg conn (r, err)],
          [EvConnClose conn].
        flatten_trace. repeat split. by destruct err.
    + exists None, (Some e), [EvDial d "tcp" server (inr e)], [].
      flatten_trace. repeat split.
  - destruct (Exchange env (trace w) dnsClient0 msg server) as [r err] eqn:He.
    simpl.
    exists r, err, [EvExchange dnsClient0 msg server (r, err)], [].
    flatten_trace. repeat split. by destruct err.
Qed.

(** ** Dispatch: the loop over the servers of the routed group *)

(** One turn of the loop. *)
Lemma dispatchLoop_cons env question extra dialer server rest f r err w1 :
  queryDns env question server extra dialer (world f) = (Ok (r, err), w1) ->
  dispatchLoop env question extra dialer (server :: rest) f =
    let f1 := mkFrame r (mkWorld (trace w1 ++ logQueryErr err)
                                 (httpClientTransport w1)) in
    if isSome r then (Ok tt, f1)
    else dispatchLoop env question extra dialer rest f1.
Proof.
  intros Hq. simpl. unfold bind at 1. unfold liftW at 1. rewrite Hq.
  run_step. destruct w1 as [tr tp]. simpl.
  destruct err as [e|], r as [m|]; simpl; rewrite ?app_nil_r; reflexivity.
Qed.

(** The run of the loop, with [rs] the responses of the attempts made. *)
Lemma dispatchLoop_run env question extra dialer servers f :
  exists f' new rs,
    dispatchLoop env question extra dialer servers f = (Ok tt, f') /\
    trace (world f') = trace (world f) ++ new /\
    attempts new = take (length rs) servers /\
    (length rs <= length servers)%nat /\
    cacheWrites new = map (fun r => (question, extra, r)) rs /\
    loggedQueryErrors new = ioErrors new /\
    ((rs = replicate (length servers) None /\
      var_r f' = match servers with [] => var_r f | _ => None end) \/
     (exists n m, rs = replicate n None ++ [Some m] /\ var_r f' = Some m)).
Proof.
  revert f. induction servers as [|server rest IH]; intros f.
  - exists f, [], []. simpl. rewrite app_nil_r. repeat split; auto.
  - destruct (queryDns_run env question server extra dialer (world f))
      as (r & err & io & closing & Hrun & Hat & Hcw & Hie & Hle
          & Hat' & Hcw' & Hie' & Hle').
    rewrite (dispatchLoop_cons _ _ _ _ _ _ _ _ _ _ Hrun). simpl.
    set (step := io ++ [EvCacheSet question extra r] ++ closing ++ logQueryErr err).
    assert (Hstep_at : attempts step = [server]).
    { unfold step, attempts in *. rewrite !omap_app, Hat, Hat'.
      by destruct err. }
    assert (Hstep_cw : cacheWrites step = [(question, extra, r)]).
    { unfold step, cacheWrites in *. rewrite !omap_app, Hcw, Hcw'.
      by destruct err. }
    assert (Hstep_err : loggedQueryErrors step = ioErrors step).
    { unfold step, loggedQueryErrors, ioErrors in *.
      rewrite !omap_app, Hle, Hle', Hie, Hie'. by destruct err. }
    assert (Htr : (trace (world f) ++ io ++ EvCacheSet question extra r :: closing)
                    ++ logQueryErr err = trace (world f) ++ step).
    { unfold step. by rewrite <- !app_assoc. }
    rewrite Htr.
    destruct r as [m|]; simpl.
    + eexists _, step, [Some m]. simpl.
      repeat split; auto; [lia|].
      right. by exists 0%nat, m.
    + destruct (IH (mkFrame None
                      (mkWorld (trace (world f) ++ step)
                               (httpClientTransport (world f)))))
        as (f' & new & rs & Hloop & Htrace & Hatt & Hlen & Hcws & Herrs & Hend).
      exists f', (step ++ new), (None :: rs). simpl in *.
      rewrite Hloop. split; [done|].
      split; [by rewrite Htrace, <- app_assoc|].
      split.
      { unfold attempts in *. by rewrite omap_app, Hstep_at, Hatt. }
      split; [lia|].
      split.
      { unfold cacheWrites in *. by rewrite omap_app, Hstep_cw, Hcws. }
      split.
      { unfold loggedQueryErrors, ioErrors in *.
        by rewrite !omap_app, Hstep_err, Herrs. }
      destruct Hend as [[-> Hr]|(n & m & -> & Hr)].
      * left. split; [done|]. by destruct rest.
      * right. by exists (S n), m.
Qed.


(** The fallback scenario of the specification: the first server of the
    group times out, the second answers; the handler replies with the
    second server's response and contacts each server once. *)
Example ServeDNS_fallback :
  let w := snd (ServeDNS envUp sampleConfig (sampleRequest "example.com." TypeA) world0) in
  attempts (trace w) = ["8.8.8.8:53"; "1.1.1.1:53"] /\
  loggedQueryErrors (trace w) = ["i/o timeout"] /\
  replies (trace w) =
    [mkMsg 5 true true [mkQuestion "example.com." TypeA ClassINET] [] []].
Proof. vm_compute. repeat split. Qed.

(** ** The hosts phase *)

Lemma frame_eta (f : Frame) :
  mkFrame (var_r f) (mkWorld (trace (world f)) (httpClientTransport (world f))) = f.
Proof. by destruct f as [r [tr tp]]. Qed.

(** Readers without a record are asked twice each, in order, and the loop
    goes on. *)
Lemma hostsLoop_miss env readers i question hostname f :
  dropLast (Name question) = Some hostname ->
  Forall (fun reader : HostsReader =>
            reader hostname (Qtype question) = "" /\
            reader (Name question) (Qtype question) = "") readers ->
  hostsLoop env readers i question f =
    (Ok false,
     mkFrame (var_r f)
       (mkWorld
          (trace (world f) ++
           missLookups i (length readers) hostname (Name question) (Qtype question))
          (httpClientTransport (world f)))).
Proof.
  intros Hdrop Hall. revert i f.
  induction Hall as [|reader readers [H1 H2] _ IH]; intros i f.
  - simpl. rewrite app_nil_r, frame_eta. reflexivity.
  - simpl. rewrite Hdrop. run_step. rewrite H1. simpl. rewrite H2. simpl.
    rewrite IH. simpl. flatten_trace. reflexivity.
Qed.

(** The first reader with a record ends the handler: the record is parsed
    and becomes the answer, or the parse error is logged and [r] keeps its
    value. *)
Lemma hostsLoop_hit env pre reader post i question hostname f :
  dropLast (Name question) = Some hostname ->
  Forall (fun reader : HostsReader =>
            reader hostname (Qtype question) = "" /\
            reader (Name question) (Qtype question) = "") pre ->
  recordOf reader hostname (Name question) (Qtype question) <> "" ->
  hostsLoop env (pre ++ reader :: post) i question f =
    let lookups :=
      missLookups i (length pre) hostname (Name question) (Qtype question) ++
      hitLookups (i + length pre) reader hostname (Name question) (Qtype question) in
    match NewRR env (recordOf reader hostname (Name question) (Qtype question)) with
    | inl rr =>
        (Ok true,
         mkFrame (Some (mkMsg 0 false false [] [rr] []))
           (mkWorld
              (trace (world f) ++ lookups ++ [EvLog (LogMatchHosts (Name question))])
              (httpClientTransport (world f))))
    | inr err =>
        (Ok true,
         mkFrame (var_r f)
           (mkWorld
              (trace (world f) ++ lookups ++
               [EvLog (LogMakeRRError err); EvLog (LogMatchHosts (Name question))])
              (httpClientTransport (world f))))
    end.
Proof.
  intros Hdrop Hall Hrec. revert i f.
  induction Hall as [|rd pre [H1 H2] _ IH]; intros i f.
  - simpl. rewrite Hdrop. run_step. rewrite Nat.add_0_r.
    unfold recordOf, hitLookups in *.
    destruct (String.eqb (reader hostname (Qtype question)) "") eqn:E1; simpl.
    + apply String.eqb_neq in Hrec. rewrite Hrec. simpl.
      destruct (NewRR env _); simpl; flatten_trace; reflexivity.
    + rewrite E1. simpl.
      destruct (NewRR env _); simpl; flatten_trace; reflexivity.
  - simpl. rewrite Hdrop. run_step. rewrite H1. simpl. rewrite H2. simpl.
    rewrite IH. simpl. rewrite <- Nat.add_succ_comm.
    destruct (NewRR env _); simpl; flatten_trace; reflexivity.
Qed.

Lemma genRecordCalls_missLookups i n hostname name qtype :
  genRecordCalls (missLookups i n hostname name qtype) =
    flat_map (fun j => [(j, hostname); (j, name)]) (seq i n).
Proof.
  revert i. induction n as [|n IH]; intros i; simpl; [done|].
  unfold genRecordCalls in *. simpl. by rewrite IH.
Qed.

Lemma missLookups_quiet i n hostname name qtype :
  Forall (fun e => isCacheOrDispatch e = false)
         (missLookups i n hostname name qtype).
Proof.
  revert i. induction n as [|n IH]; intros i; simpl; repeat constructor.
  apply IH.
Qed.

Lemma hitLookups_quiet i reader hostname name qtype :
  Forall (fun e => isCacheOrDispatch e = false)
         (hitLookups i reader hostname name qtype).
Proof. unfold hitLookups. destruct (String.eqb _ _); repeat constructor. Qed.

(** ** Exhaustion: every upstream attempt fails *)

Lemma queryDns_AllFail env q server extra dialer w :
  AllFail env ->
  exists err new,
    queryDns env q server extra dialer w =
      (Ok (None, err), mkWorld (trace w ++ new) (httpClientTransport w)) /\
    attempts new = [server] /\
    replies new = [].
Proof.
  intros [Hex Hrd]. unfold queryDns. run_step.
  set (msg := SetQuestion _ _ _ _).
  destruct dialer as [d|]; simpl.
  - destruct (Dial env (trace w) d "tcp" server) as [conn|e] eqn:Hd; simpl.
    + destruct (WriteMsg env _ conn msg) as [e|] eqn:Hw; simpl.
      * eexists _, [_; _; _; _]. flatten_trace. repeat split.
      * pose proof (Hrd ((trace w ++ [EvDial d "tcp" server (inl conn)]) ++
                         [EvWriteMsg conn msg None]) conn) as Hnil.
        destruct (ReadMsg env _ conn) as [r err] eqn:Hr; simpl in *. subst r.
        eexists _, [_; _; _; _; _]. flatten_trace. repeat split.
    + eexists _, [_; _]. flatten_trace. repeat split.
  - pose proof (Hex (trace w) dnsClient0 msg server) as Hnil.
    destruct (Exchange env (trace w) dnsClient0 msg server) as [r err] eqn:He.
    simpl in *. subst r.
    eexists _, [_; _]. flatten_trace. repeat split.
Qed.

Lemma dispatchLoop_AllFail env q extra dialer servers f :
  AllFail env ->
  var_r f = None ->
  exists new,
    dispatchLoop env q extra dialer servers f =
      (Ok tt,
       mkFrame None
         (mkWorld (trace (world f) ++ new) (httpClientTransport (world f)))) /\
    attempts new = servers /\
    replies new = [].
Proof.
  intros Hfail. revert f. induction servers as [|server rest IH]; intros f Hr.
  - exists []. simpl. rewrite app_nil_r, <- Hr, frame_eta. done.
  - destruct (queryDns_AllFail env q server extra dialer (world f) Hfail)
      as (err & step & Hrun & Hat & Hrep).
    rewrite (dispatchLoop_cons _ _ _ _ _ _ _ _ _ _ Hrun). simpl.
    destruct (IH (mkFrame None
                    (mkWorld ((trace (world f) ++ step) ++ logQueryErr err)
                             (httpClientTransport (world f)))) eq_refl)
      as (new & Hloop & Hatt & Hreps).
    rewrite Hloop. simpl.
    exists (step ++ logQueryErr err ++ new).
    split; [by rewrite <- !app_assoc|].
    unfold attempts, replies in *. rewrite !omap_app, Hat, Hatt, Hrep, Hreps.
    by destruct err.
Qed.

Lemma getGroupName_run env cfg domain w :
  exists new,
    getGroupName env cfg domain w =
      (Ok (routeAt env cfg (trace w) domain),
       mkWorld (trace w ++ new) (httpClientTransport w)) /\
    attempts new = [] /\
    replies new = [].
Proof.
  rewrite getGroupName_unfold. unfold getGroupNameIn, routeAt, gfwDecision.
  destruct (suffixScan _ _).
  - eexists [_]. repeat split.
  - run_step.
    exists [EvRangeMap (rangeMap (rangeChoice env (trace w)) (suffixMap cfg));
            EvIsBlocked domain (GFWChecker_IsBlocked cfg domain)].
    flatten_trace.
    by destruct (GFWChecker_IsBlocked cfg domain) as [[] []].
Qed.

Lemma hostsSilent_miss env cfg question f :
  hostsSilent cfg question = true ->
  exists new,
    (if N.eqb (Qtype question) TypeA || N.eqb (Qtype question) TypeAAAA
     then hostsLoop env (hostsReaders cfg) 0 question
     else ret false) f =
      (Ok false,
       mkFrame (var_r f)
         (mkWorld (trace (world f) ++ new) (httpClientTransport (world f)))) /\
    attempts new = [] /\
    replies new = [].
Proof.
  unfold hostsSilent. intros Hs.
  destruct (N.eqb (Qtype question) TypeA || N.eqb (Qtype question) TypeAAAA);
    simpl in Hs.
  - destruct (dropLast (Name question)) as [hostname|] eqn:Hdrop.
    + eexists. split.
      * apply (hostsLoop_miss env _ 0 question hostname f Hdrop).
        apply Forall_forall. intros reader Hin.
        apply list_elem_of_In in Hin.
        pose proof (proj1 (forallb_forall _ _) Hs reader Hin) as Hrd.
        simpl in Hrd. apply andb_true_iff in Hrd as [H1 H2].
        by apply String.eqb_eq in H1, H2.
      * generalize 0%nat.
        induction (length (hostsReaders cfg)) as [|n IH]; intros i; [done|].
        simpl. apply IH.
    + destruct (hostsReaders cfg); [|discriminate].
      exists []. simpl. unfold ret. by rewrite app_nil_r, frame_eta.
  - exists []. unfold ret. by rewrite app_nil_r, frame_eta.
Qed.

Lemma routeAndDispatch_exhausted env cfg question request group f :
  AllFail env ->
  var_r f = None ->
  Groups cfg !! (routeAt env cfg (trace (world f)) (Name question)).1 = Some group ->
  exists new,
    routeAndDispatch env cfg question request f =
      (match IPSet group with
       | Some _ => Panicked NilDereference
       | None => Ok tt
       end,
       mkFrame None
         (mkWorld (trace (world f) ++ new) (httpClientTransport (world f)))) /\
    attempts new = DNS group /\
    replies new = [].
Proof.
  intros Hfail Hr Hgroup. unfold routeAndDispatch.
  unfold bind at 1. unfold liftW at 1.
  destruct (getGroupName_run env cfg (Name question) (world f))
    as (new1 & Hroute & Hat1 & Hrep1).
  rewrite Hroute.
  destruct (routeAt env cfg (trace (world f)) (Name question)) as [g reason].
  simpl in Hgroup.
  unfold bind at 1. unfold liftW at 1, logPrint, emit. simpl.
  rewrite Hgroup.
  unfold bind at 1.
  set (f1 := mkFrame _ _).
  destruct (dispatchLoop_AllFail env question (Extra request) (Dialer group)
              (DNS group) f1 Hfail Hr) as (new2 & Hloop & Hat2 & Hrep2).
  rewrite Hloop. subst f1. simpl.
  exists (new1 ++ [EvLog (LogMatchGroup (Name question) g reason)] ++ new2).
  split.
  - destruct (IPSet group); run_step; flatten_trace; reflexivity.
  - unfold attempts, replies in *.
    rewrite !omap_app, Hat1, Hat2, Hrep1, Hrep2. done.
Qed.

(** C1: a request that passes the loop guard, finds no hosts record and
    no cache entry, and is routed to an existing group all of whose
    upstream attempts end without a response.  Every server of the group
    is tried and no reply is written; the handler returns normally when
    the group has no address set, and panics on [r.Answer] with [r] nil
    when the group has one. *)
Theorem ServeDNS_exhausted env cfg request question rest group w :
  Question request = question :: rest ->
  (strings.Count (Name question) ".ne-" <= 1)%nat ->
  hostsSilent cfg question = true ->
  (forall h, CacheLookup env h question (Extra request) = None) ->
  AllFail env ->
  (forall h, Groups cfg !! (routeAt env cfg h (Name question)).1 = Some group) ->
  exists new,
    ServeDNS env cfg request w =
      (match IPSet group with
       | Some _ => Panicked NilDereference
       | None => Ok tt
       end,
       mkWorld (trace w ++ new ++ [EvRespClose]) (httpClientTransport w)) /\
    attempts new = DNS group /\
    replies new = [].
Proof.
  intros Hq Hcount Hsilent Hcache Hfail Hgroup.
  unfold ServeDNS, withDefer, ServeDNS_body. rewrite Hq.
  assert ((1 <? strings.Count (Name question) ".ne-")%nat = false) as ->
    by (apply Nat.ltb_ge; lia).
  unfold bind at 1.
  destruct (hostsSilent_miss env cfg question (mkFrame None w) Hsilent)
    as (new1 & Hhosts & Hat1 & Hrep1).
  rewrite Hhosts. simpl.
  unfold bind at 1. unfold liftW at 1, getDNSCache, bind, ask, emit, ret.
  simpl. rewrite Hcache. simpl.
  set (f1 := mkFrame _ _).
  destruct (routeAndDispatch_exhausted env cfg question request group f1
              Hfail eq_refl (Hgroup _)) as (new2 & Hrun & Hat2 & Hrep2).
  rewrite Hrun. subst f1. simpl.
  exists (new1 ++ [EvCacheGet question (Extra request) None] ++ new2).
  split.
  - destruct (IPSet group); unfold ServeDNS_deferred; run_step; flatten_trace;
      reflexivity.
  - unfold attempts, replies in *.
    rewrite !omap_app, Hat1, Hat2, Hrep1, Hrep2. done.
Qed.

Lemma ServeDNS_exhausted_witness :
  exists new,
    ServeDNS envDown plainConfig (sampleRequest "example.org." TypeA) world0 =
      (Panicked NilDereference, mkWorld ([] ++ new ++ [EvRespClose]) None) /\
    attempts new = ["8.8.8.8:53"; "1.1.1.1:53"] /\
    replies new = [].
Proof.
  apply (ServeDNS_exhausted envDown plainConfig
           (sampleRequest "example.org." TypeA)
           (mkQuestion "example.org." TypeA ClassINET) []
           (mkGroup ["8.8.8.8:53"; "1.1.1.1:53"] None (Some 3%nat) 60) world0).
  - reflexivity.
  - vm_compute. lia.
  - reflexivity.
  - reflexivity.
  - split; reflexivity.
  - intros h. vm_compute. reflexivity.
Defined.

(** ** The transport callers *)

(** The guard of [call]: the three callers built on it reject an invalid
    request before anything else happens. *)
Lemma call_guard env client request address dialer w :
  match request with
  | None => True
  | Some req => Question req = [] \/ address = ""
  end ->
  outbound.call env client request address dialer w =
    (Ok (None, Some outbound.errEmpty), w).
Proof.
  unfold outbound.call. destruct request as [req|]; [|reflexivity].
  intros [Hq| ->].
  - rewrite Hq. reflexivity.
  - rewrite orb_true_r. reflexivity.
Qed.

(** Once the request is packed, [DoHCaller.Call] posts it. *)
Lemma DoHCall_posts env Url Dialer req buf w :
  Pack env req = inl buf ->
  exists res w' transport posted rest,
    outbound.DoHCall env Url Dialer (Some req) w = (res, w') /\
    trace w' =
      trace w ++
      EvHttpPost transport Url "application/dns-message" buf posted :: rest.
Proof.
  intros Hpack. unfold outbound.DoHCall. rewrite Hpack.
  unfold io_HttpPost, outbound.setTransport, withDefer, io_ReadAll.
  destruct Dialer as [d|]; run_step.
  - destruct (HttpPost env (trace w) (Some d) Url _ buf) as [resp|err]; simpl.
    + destruct (ReadAll env _ resp) as [bytes|err]; simpl.
      * destruct (Unpack env bytes); simpl;
          do 5 eexists; (split; [reflexivity|]); simpl; flatten_trace;
          reflexivity.
      * do 5 eexists. split; [reflexivity|]. simpl. flatten_trace. reflexivity.
    + do 5 eexists. split; [reflexivity|]. simpl. reflexivity.
  - destruct (HttpPost env (trace w) (httpClientTransport w) Url _ buf)
      as [resp|err]; simpl.
    + destruct (ReadAll env _ resp) as [bytes|err]; simpl.
      * destruct (Unpack env bytes); simpl;
          do 5 eexists; (split; [reflexivity|]); simpl; flatten_trace;
          reflexivity.
      * do 5 eexists. split; [reflexivity|]. simpl. flatten_trace. reflexivity.
    + do 5 eexists. split; [reflexivity|]. simpl. reflexivity.
Qed.

(** C3: what each caller does with an invalid request (absent, without a
    question, or for an empty address or URL).  The UDP, TCP and TLS
    callers return the invalid-request error and touch nothing.  The
    HTTPS caller has no such guard: an absent request panics in [Pack], a
    request that does not pack returns the packing error, and any request
    that packs is posted over the network. *)
Theorem Call_invalid_request env caller request w :
  invalidRequest caller request = true ->
  match caller with
  | outbound.DoHCaller Url Dialer =>
      match request with
      | None =>
          outbound.Call env caller request w = (Panicked NilDereference, w)
      | Some req =>
          match Pack env req with
          | inr err =>
              outbound.Call env caller request w = (Ok (None, Some err), w)
          | inl buf =>
              exists res w' transport posted rest,
                outbound.Call env caller request w = (res, w') /\
                trace w' =
                  trace w ++
                  EvHttpPost transport Url "application/dns-message" buf posted
                  :: rest
          end
      end
  | _ =>
      outbound.Call env caller request w =
        (Ok (None, Some outbound.errEmpty), w)
  end.
Proof.
  intros Hinv.
  assert (Hcall : forall a (d : option proxyDialer),
             match request with
             | None => true
             | Some req =>
                 match Question req with [] => true | _ => false end ||
                 String.eqb a ""
             end = true ->
             match request with
             | None => True
             | Some req => Question req = [] \/ a = ""
             end).
  { intros a d H. destruct request as [req|]; [|done].
    apply orb_true_iff in H as [H|H].
    - left. by destruct (Question req).
    - right. by apply String.eqb_eq. }
  destruct caller as [a d|a d|a d c|u d]; simpl in *.
  - apply call_guard, (Hcall a d Hinv).
  - apply call_guard, (Hcall a d Hinv).
  - apply call_guard, (Hcall a d Hinv).
  - destruct request as [req|]; [|reflexivity].
    destruct (Pack env req) as [buf|err] eqn:Hpack.
    + apply (DoHCall_posts env u d req buf w Hpack).
    + unfold outbound.DoHCall. rewrite Hpack. reflexivity.
Qed.

Lemma Call_invalid_request_witness :
  invalidRequest (outbound.DoHCaller "https://dns.example/dns-query" None)
                 (Some emptyRequest) = true /\
  exists res w' transport posted rest,
    outbound.Call envDown
      (outbound.DoHCaller "https://dns.example/dns-query" None)
      (Some emptyRequest) world0 = (res, w') /\
    trace w' =
      [] ++
      EvHttpPost transport "https://dns.example/dns-query"
        "application/dns-message" [] posted :: rest.
Proof.
  split; [reflexivity|].
  apply (Call_invalid_request envDown
           (outbound.DoHCaller "https://dns.example/dns-query" None)
           (Some emptyRequest) world0).
  reflexivity.
Defined.

(** * Further properties *)

(** ** Strings *)

Lemma append_cons c (a b : string) : String c a +:+ b = String c (a +:+ b).
Proof. reflexivity. Qed.

Lemma append_nil_l (b : string) : "" +:+ b = b.
Proof. reflexivity. Qed.

Lemma string_length_append (a b : string) :
  String.length (a +:+ b) = (String.length a + String.length b)%nat.
Proof.
  induction a as [|c a IH]; [done|]. rewrite append_cons. simpl. by rewrite IH.
Qed.

Lemma string_append_nil_r (a : string) : a +:+ "" = a.
Proof. induction a as [|c a IH]; [done|]. by rewrite append_cons, IH. Qed.

Lemma string_append_assoc (a b c : string) : (a +:+ b) +:+ c = a +:+ b +:+ c.
Proof. induction a as [|x a IH]; [done|]. by rewrite !append_cons, IH. Qed.

Lemma prefix_append (p r : string) : String.prefix p (p +:+ r) = true.
Proof.
  induction p as [|c p IH]; [by destruct r|].
  rewrite append_cons. simpl.
  destruct (Ascii.ascii_dec c c); [exact IH|done].
Qed.

Lemma prefix_inv (p s : string) :
  String.prefix p s = true -> exists r, s = p +:+ r.
Proof.
  revert s. induction p as [|c p IH]; intros s H.
  - by exists s.
  - destruct s as [|d s]; simpl in H; [done|].
    destruct (Ascii.ascii_dec c d) as [->|]; [|done].
    destruct (IH s H) as [r ->]. by exists r.
Qed.

Lemma substring_0_all (s : string) : String.substring 0 (String.length s) s = s.
Proof. induction s as [|c s IH]; simpl; [done|]. by rewrite IH. Qed.

Lemma substring_0_append (a b : string) :
  String.substring 0 (String.length a) (a +:+ b) = a.
Proof.
  induction a as [|c a IH]; [by destruct b|].
  rewrite append_cons. simpl. by rewrite IH.
Qed.

Lemma substring_skip_append (a b : string) n m :
  String.substring (String.length a + n) m (a +:+ b) = String.substring n m b.
Proof. induction a as [|c a IH]; [done|]. rewrite append_cons. exact IH. Qed.

Lemma substring_split (s : string) n :
  (n <= String.length s)%nat ->
  s = String.substring 0 n s +:+ String.substring n (String.length s - n) s.
Proof.
  revert n. induction s as [|c s IH]; intros n Hn; simpl in *.
  - by destruct n.
  - destruct n as [|n]; simpl.
    + by rewrite substring_0_all.
    + rewrite append_cons. f_equal. apply IH. lia.
Qed.

Lemma HasSuffix_append (a b : string) : strings.HasSuffix (a +:+ b) b = true.
Proof.
  unfold strings.HasSuffix. rewrite string_length_append.
  apply andb_true_iff. split; [apply Nat.leb_le; lia|].
  replace (String.length a + String.length b - String.length b)%nat
    with (String.length a + 0)%nat by lia.
  rewrite substring_skip_append, substring_0_all. apply String.eqb_refl.
Qed.

Lemma HasSuffix_inv (s x : string) :
  strings.HasSuffix s x = true -> exists r, s = r +:+ x.
Proof.
  unfold strings.HasSuffix. intros H.
  apply andb_true_iff in H as [Hlen Heq].
  apply Nat.leb_le in Hlen. apply String.eqb_eq in Heq.
  exists (String.substring 0 (String.length s - String.length x) s).
  pose proof (substring_split s (String.length s - String.length x)) as Hs.
  replace (String.length s - (String.length s - String.length x))%nat
    with (String.length x) in Hs by lia.
  rewrite Heq in Hs. apply Hs. lia.
Qed.

Lemma HasSuffix_empty (s : string) : strings.HasSuffix s "" = true.
Proof.
  rewrite <- (string_append_nil_r s) at 1. apply HasSuffix_append.
Qed.

Lemma Contains_unfold (s x : string) :
  strings.Contains s x =
    String.prefix x s ||
    match s with
    | EmptyString => false
    | String _ s' => strings.Contains s' x
    end.
Proof. by destruct s. Qed.

Lemma Contains_append_mid (a b c : string) :
  strings.Contains (a +:+ b +:+ c) b = true.
Proof.
  induction a as [|x a IH]; rewrite Contains_unfold.
  - rewrite append_nil_l. by rewrite prefix_append.
  - rewrite append_cons, IH. apply orb_true_r.
Qed.

Lemma Contains_append_r (a b : string) : strings.Contains (a +:+ b) b = true.
Proof.
  rewrite <- (string_append_nil_r b) at 1. apply Contains_append_mid.
Qed.

Lemma append_not_empty (a b : string) : b <> "" -> a +:+ b <> "".
Proof. destruct a; [done|]. rewrite append_cons. discriminate. Qed.

(** ** Building the callers of a group *)

Lemma appendLoop_flat_map turn addrs callers :
  initConfig.appendLoop turn addrs callers = callers ++ flat_map turn addrs.
Proof.
  revert callers. induction addrs as [|addr rest IH]; intros callers; simpl.
  - by rewrite app_nil_r.
  - by rewrite IH, <- app_assoc.
Qed.

(** X5: the callers of a group are those of its plain DNS entries, then
    those of its DoT entries, then those of its DoH entries, each in the
    configured order; an entry contributes at most one caller. *)
Theorem groupCallers_order dialer group :
  initConfig.groupCallers dialer group =
    flat_map (initConfig.dnsTurn dialer) (initConfig.DNS group) ++
    flat_map (initConfig.dotTurn dialer) (initConfig.DoT group) ++
    flat_map (initConfig.dohTurn dialer) (initConfig.DoH group) /\
  (forall addr, length (initConfig.dnsTurn dialer addr) <= 1) /\
  (forall addr, length (initConfig.dotTurn dialer addr) <= 1) /\
  (forall addr, length (initConfig.dohTurn dialer addr) <= 1).
Proof.
  split; [|split; [|split]].
  - unfold initConfig.groupCallers. rewrite !appendLoop_flat_map. simpl.
    by rewrite app_assoc.
  - intros addr. unfold initConfig.dnsTurn.
    destruct (strings.HasSuffix addr "/tcp"); simpl;
      destruct (String.eqb _ ""); simpl; lia.
  - intros addr. unfold initConfig.dotTurn.
    destruct (strings.Split addr "@") as [|a [|n [|? ?]]]; simpl; try lia.
    unfold outbound.NewTLSCaller.
    destruct (String.eqb a ""), (String.eqb n ""); simpl; lia.
  - intros addr. unfold initConfig.dohTurn.
    destruct (initConfig.dohRegMatch addr); simpl; lia.
Qed.

(** The meaning of the pattern [^https://.+/dns-query$]. *)
Lemma dohRegMatch_iff (addr : string) :
  initConfig.dohRegMatch addr = true <->
  exists mid,
    addr = "https://" +:+ mid +:+ "/dns-query" /\ mid <> "" /\
    ~ In initConfig.newline (String.list_ascii_of_string mid).
Proof.
  unfold initConfig.dohRegMatch. split.
  - intros H.
    apply andb_true_iff in H as [H Hnl].
    apply andb_true_iff in H as [H Hlen].
    apply andb_true_iff in H as [Hpre Hsuf].
    apply Nat.leb_le in Hlen.
    apply prefix_inv in Hpre as [r ->].
    unfold strings.HasSuffix in Hsuf.
    apply andb_true_iff in Hsuf as [_ Hsuf]. apply String.eqb_eq in Hsuf.
    rewrite string_length_append in *.
    change (String.length "/dns-query") with 10%nat in Hsuf.
    change (String.length "https://") with 8%nat in *.
    set (mid := String.substring 0 (String.length r - 10) r).
    assert (Hmid : String.substring 8 (8 + String.length r - 18)
                     ("https://" +:+ r) = mid).
    { change 8%nat with (String.length "https://" + 0)%nat at 1.
      rewrite substring_skip_append. unfold mid. f_equal; lia. }
    assert (Htail : String.substring (String.length r - 10) 10 r = "/dns-query").
    { rewrite <- Hsuf.
      replace (8 + String.length r - 10)%nat
        with (String.length "https://" + (String.length r - 10))%nat
        by (simpl; lia).
      by rewrite substring_skip_append. }
    assert (Hrsplit : r = mid +:+ "/dns-query").
    { pose proof (substring_split r (String.length r - 10)) as Hs.
      replace (String.length r - (String.length r - 10))%nat with 10%nat in Hs
        by lia.
      rewrite Htail in Hs. apply Hs. lia. }
    exists mid. split; [by rewrite Hrsplit at 1|].
    split.
    + intros Hempty. rewrite Hempty in Hrsplit. rewrite Hrsplit in Hlen.
      simpl in Hlen. lia.
    + rewrite Hmid in Hnl. apply negb_true_iff in Hnl.
      intros Hin. apply not_true_iff_false in Hnl. apply Hnl.
      apply existsb_exists. exists initConfig.newline.
      split; [exact Hin|]. apply Ascii.eqb_refl.
  - intros (mid & -> & Hne & Hnl).
    set (s := "https://" +:+ mid +:+ "/dns-query").
    assert (Hlen : String.length s = (18 + String.length mid)%nat).
    { unfold s. rewrite !string_length_append. simpl. lia. }
    assert (H1 : String.prefix "https://" s = true) by apply prefix_append.
    assert (H2 : strings.HasSuffix s "/dns-query" = true).
    { unfold s. rewrite <- string_append_assoc. apply HasSuffix_append. }
    assert (H3 : (19 <=? String.length s)%nat = true).
    { apply Nat.leb_le. rewrite Hlen. destruct mid; [done|]. simpl. lia. }
    assert (H4 : String.substring 8 (String.length s - 18) s = mid).
    { rewrite Hlen.
      replace (18 + String.length mid - 18)%nat with (String.length mid) by lia.
      unfold s. change 8%nat with (String.length "https://" + 0)%nat.
      by rewrite substring_skip_append, substring_0_append. }
    rewrite H1, H2, H3, H4.
    apply negb_true_iff, not_true_iff_false. intros Hex.
    apply existsb_exists in Hex as (c & Hin & Hc).
    apply Ascii.eqb_eq in Hc. subst c. by apply Hnl.
Qed.

(** X4: a DoH entry becomes a caller exactly when it reads ["https://"],
    then at least one character and no newline, then ["/dns-query"]; the
    caller then carries the entry unchanged as its URL.  Any other entry is
    dropped. *)
Theorem dohTurn_registers_only_matching dialer addr :
  ((exists mid,
      addr = "https://" +:+ mid +:+ "/dns-query" /\ mid <> "" /\
      ~ In initConfig.newline (String.list_ascii_of_string mid)) ->
   initConfig.dohTurn dialer addr = [outbound.DoHCaller addr dialer]) /\
  (~ (exists mid,
        addr = "https://" +:+ mid +:+ "/dns-query" /\ mid <> "" /\
        ~ In initConfig.newline (String.list_ascii_of_string mid)) ->
   initConfig.dohTurn dialer addr = []).
Proof.
  unfold initConfig.dohTurn. split; intros H.
  - apply dohRegMatch_iff in H. by rewrite H.
  - destruct (initConfig.dohRegMatch addr) eqn:E; [|done].
    apply dohRegMatch_iff in E. contradiction.
Qed.

Lemma dohTurn_registers_only_matching_witness :
  initConfig.dohTurn (Some 1%nat) "https://dns.google/dns-query" =
    [outbound.DoHCaller "https://dns.google/dns-query" (Some 1%nat)] /\
  initConfig.dohTurn None "http://dns.google/dns-query" = [].
Proof.
  split.
  - apply (dohTurn_registers_only_matching (Some 1%nat)
             "https://dns.google/dns-query").
    exists "dns.google". split; [reflexivity|]. split; [discriminate|].
    vm_compute. intros H. repeat (destruct H as [H|H]; [discriminate H|]).
    exact H.
  - apply (dohTurn_registers_only_matching None "http://dns.google/dns-query").
    intros (mid & Heq & _). discriminate Heq.
Defined.

(** X2: what a plain DNS entry becomes.  An entry that does not end in
    ["/tcp"] yields a UDP caller, an entry [a/tcp] a TCP caller for [a]
    (only this one suffix is removed); in both cases [":53"] is appended
    when the address holds no colon, and an empty address yields no
    caller. *)
Theorem dnsTurn_cases dialer :
  (forall addr,
     strings.HasSuffix addr "/tcp" = false ->
     initConfig.dnsTurn dialer addr =
       if String.eqb addr "" then []
       else [outbound.UDPCaller (withPort addr "53") dialer]) /\
  (forall a,
     initConfig.dnsTurn dialer (a +:+ "/tcp") =
       if String.eqb a "" then []
       else [outbound.TCPCaller (withPort a "53") dialer]).
Proof.
  split.
  - intros addr Hs. unfold initConfig.dnsTurn, withPort. rewrite Hs.
    destruct (String.eqb addr ""); simpl; [done|].
    by destruct (strings.Contains addr ":").
  - intros a. unfold initConfig.dnsTurn, withPort.
    rewrite HasSuffix_append.
    rewrite string_length_append. simpl String.length.
    replace (String.length a + 4 - 4)%nat with (String.length a) by lia.
    rewrite substring_0_append.
    destruct (String.eqb a ""); simpl; [done|].
    by destruct (strings.Contains a ":").
Qed.

Lemma dnsTurn_cases_witness :
  initConfig.dnsTurn None "8.8.8.8" = [outbound.UDPCaller "8.8.8.8:53" None].
Proof.
  destruct (dnsTurn_cases None) as [Hudp _].
  rewrite (Hudp "8.8.8.8"); reflexivity.
Defined.

Lemma split_length k s sep :
  length (strings.split_from k s sep) = S (strings.count_from k s sep).
Proof.
  revert k. induction s as [|c s IH]; intros k; [done|].
  cbn [strings.split_from strings.count_from].
  destruct k as [|k]; [|apply IH].
  destruct (String.prefix sep (String c s)).
  - cbn [length]. by rewrite IH.
  - specialize (IH 0%nat).
    destruct (strings.split_from 0 s sep); cbn [length] in *; [done|exact IH].
Qed.

Lemma prefix_at_cons c s : String.prefix "@" (String c s) = String.prefix "@" (String c "").
Proof.
  cbn [String.prefix].
  match goal with
  | |- context [Ascii.ascii_dec ?x c] => destruct (Ascii.ascii_dec x c)
  end; [by destruct s|done].
Qed.

Lemma split_at_none s :
  strings.Contains s "@" = false -> strings.split_from 0 s "@" = [s].
Proof.
  induction s as [|c s IH]; [done|].
  rewrite Contains_unfold. intros H.
  apply orb_false_iff in H as [Hp Hc].
  cbn [strings.split_from]. rewrite Hp. by rewrite (IH Hc).
Qed.

Lemma split_at_one a n :
  strings.Contains a "@" = false ->
  strings.split_from 0 (a +:+ "@" +:+ n) "@" = a :: strings.split_from 0 n "@".
Proof.
  induction a as [|c a IH].
  - intros _. pose proof (prefix_append "@" n) as Hp.
    rewrite append_nil_l. rewrite append_cons, append_nil_l in *.
    cbn [strings.split_from]. by rewrite Hp.
  - rewrite Contains_unfold. intros H.
    apply orb_false_iff in H as [Hp Hc].
    rewrite append_cons. cbn [strings.split_from].
    rewrite prefix_at_cons. rewrite prefix_at_cons in Hp. rewrite Hp.
    by rewrite (IH Hc).
Qed.

(** X3: what a DoT entry becomes.  Only an entry with exactly one ["@"]
    can yield a caller; an entry [a@n] yields a TLS caller for the address
    [a], with [":853"] appended when [a] holds no colon, that verifies the
    certificate against the server name [n], and yields nothing when [a] or
    [n] is empty. *)
Theorem dotTurn_cases dialer :
  (forall addr,
     initConfig.dotTurn dialer addr <> [] -> strings.Count addr "@" = 1%nat) /\
  (forall a n,
     strings.Contains a "@" = false ->
     strings.Contains n "@" = false ->
     initConfig.dotTurn dialer (a +:+ "@" +:+ n) =
       if String.eqb a "" || String.eqb n "" then []
       else [outbound.TLSCaller (withPort a "853") dialer
               (mkClient "tcp-tls" (Some (mkTLSConfig n false)))]).
Proof.
  split.
  - intros addr H. unfold initConfig.dotTurn in H.
    pose proof (split_length 0 addr "@") as Hlen.
    change (strings.split_from 0 addr "@") with (strings.Split addr "@") in Hlen.
    change (strings.count_from 0 addr "@") with (strings.Count addr "@") in Hlen.
    destruct (strings.Split addr "@") as [|a [|n [|? ?]]]; try done.
    cbn [length] in Hlen. lia.
  - intros a n Ha Hn. unfold initConfig.dotTurn, withPort.
    change (strings.Split (a +:+ "@" +:+ n) "@")
      with (strings.split_from 0 (a +:+ "@" +:+ n) "@").
    rewrite (split_at_one a n Ha), (split_at_none n Hn).
    destruct (String.eqb a ""); simpl; [done|].
    destruct (String.eqb n ""); simpl; [done|].
    unfold outbound.NewTLSCaller.
    by destruct (strings.Contains a ":").
Qed.

Lemma dotTurn_cases_witness :
  initConfig.dotTurn None "1.1.1.1@cloudflare-dns.com" =
    [outbound.TLSCaller "1.1.1.1:853" None
       (mkClient "tcp-tls" (Some (mkTLSConfig "cloudflare-dns.com" false)))] /\
  strings.Count "1.1.1.1@cloudflare-dns.com" "@" = 1%nat.
Proof.
  destruct (dotTurn_cases None) as [Hcount Hturn].
  split.
  - apply (Hturn "1.1.1.1" "cloudflare-dns.com"); reflexivity.
  - apply Hcount. vm_compute. discriminate.
Defined.

Lemma withPort_wellformed addr port :
  addr <> "" ->
  withPort addr port <> "" /\ strings.Contains (withPort addr port) ":" = true.
Proof.
  intros Hne. unfold withPort.
  destruct (strings.Contains addr ":") eqn:E; [done|].
  split.
  - destruct addr; [done|]. rewrite append_cons. discriminate.
  - apply Contains_append_mid.
Qed.

Lemma withPort_53 a :
  (if negb (strings.Contains a ":") then a +:+ ":53" else a) = withPort a "53".
Proof. unfold withPort. by destruct (strings.Contains a ":"). Qed.

Lemma withPort_853 a :
  (if negb (strings.Contains a ":") then a +:+ ":853" else a) = withPort a "853".
Proof. unfold withPort. by destruct (strings.Contains a ":"). Qed.

(** X1: every caller [initConfig] builds for a group is well formed and
    carries the dialer of the group: the socket callers have a non-empty
    address with a port, the TLS callers moreover a non-empty server name
    with certificate verification on, the HTTPS callers a URL of the form
    [https://.../dns-query].  Hence no such caller has an empty address, and
    a request with a question is never invalid for it. *)
Theorem groupCallers_wellformed dialer group c :
  c ∈ initConfig.groupCallers dialer group ->
  wellFormedCaller c /\
  callerDialer c = dialer /\
  callerAddress c <> "" /\
  forall req question rest,
    Question req = question :: rest -> invalidRequest c (Some req) = false.
Proof.
  intros Hin.
  assert (Hwf : wellFormedCaller c /\ callerDialer c = dialer).
  { unfold initConfig.groupCallers in Hin.
    rewrite !appendLoop_flat_map in Hin. simpl in Hin.
    rewrite !elem_of_app in Hin.
    destruct Hin as [[Hin|Hin]|Hin];
      apply list_elem_of_In, in_flat_map in Hin as (addr & _ & Hin);
      apply list_elem_of_In in Hin.
    - unfold initConfig.dnsTurn in Hin.
      destruct (strings.HasSuffix addr "/tcp"); simpl in Hin.
      + set (a := String.substring 0 (String.length addr - 4) addr) in *.
        destruct (String.eqb a "") eqn:Ea; simpl in Hin;
          [by apply elem_of_nil in Hin|].
        apply String.eqb_neq in Ea.
        apply list_elem_of_singleton in Hin as ->. simpl.
        split; [|done]. rewrite withPort_53.
        apply (withPort_wellformed a "53" Ea).
      + destruct (String.eqb addr "") eqn:Ea; simpl in Hin;
          [by apply elem_of_nil in Hin|].
        apply String.eqb_neq in Ea.
        apply list_elem_of_singleton in Hin as ->. simpl.
        split; [|done]. rewrite withPort_53.
        apply (withPort_wellformed addr "53" Ea).
    - unfold initConfig.dotTurn in Hin.
      destruct (strings.Split addr "@") as [|a [|n [|? ?]]];
        try (by apply elem_of_nil in Hin).
      destruct (String.eqb a "") eqn:Ea; simpl in Hin;
        [by apply elem_of_nil in Hin|].
      destruct (String.eqb n "") eqn:En; simpl in Hin;
        [by apply elem_of_nil in Hin|].
      apply String.eqb_neq in Ea, En.
      apply list_elem_of_singleton in Hin as ->. simpl.
      split; [|done]. rewrite withPort_853.
      destruct (withPort_wellformed a "853" Ea) as [H1 H2].
      repeat split; try done. by exists n.
    - unfold initConfig.dohTurn in Hin.
      destruct (initConfig.dohRegMatch addr) eqn:E;
        [|by apply elem_of_nil in Hin].
      apply list_elem_of_singleton in Hin as ->. simpl.
      split; [|done]. by apply dohRegMatch_iff. }
  destruct Hwf as [Hwf Hd].
  assert (Hne : callerAddress c <> "").
  { destruct c as [a d|a d|a d cl|u d]; simpl in *; try tauto.
    destruct Hwf as (mid & -> & _). discriminate. }
  repeat split; try done.
  intros req question rest Hq. unfold invalidRequest. rewrite Hq. simpl.
  apply String.eqb_neq in Hne.
  by destruct c as [a d|a d|a d cl|u d]; simpl in *.
Qed.

Lemma groupCallers_wellformed_witness :
  wellFormedCaller (outbound.TCPCaller "8.8.4.4:53" (Some 1%nat)) /\
  invalidRequest (outbound.TCPCaller "8.8.4.4:53" (Some 1%nat))
    (Some (sampleRequest "example.org." TypeA)) = false.
Proof.
  destruct (groupCallers_wellformed (Some 1%nat)
              (initConfig.mkGroupStruct "127.0.0.1:1080" "" 0
                 ["8.8.8.8"; "8.8.4.4/tcp"] [] [] [])
              (outbound.TCPCaller "8.8.4.4:53" (Some 1%nat)))
    as (Hwf & _ & _ & Hvalid).
  - vm_compute. right. left.
  - split; [exact Hwf|].
    apply (Hvalid _ (mkQuestion "example.org." TypeA ClassINET) []).
    reflexivity.
Defined.

(** ** Building the groups and the cache parameters *)

(** Every caller of a group carries the dialer the loops were given. *)
Lemma groupCallers_dialer dialer group c :
  c ∈ initConfig.groupCallers dialer group -> callerDialer c = dialer.
Proof.
  unfold initConfig.groupCallers. rewrite !appendLoop_flat_map. simpl.
  rewrite !elem_of_app.
  intros [[Hin|Hin]|Hin];
    apply list_elem_of_In, in_flat_map in Hin as (addr & _ & Hin);
    apply list_elem_of_In in Hin.
  - unfold initConfig.dnsTurn in Hin.
    destruct (strings.HasSuffix addr "/tcp"); simpl in Hin;
      destruct (String.eqb _ "") in Hin; simpl in Hin;
      try (by apply elem_of_nil in Hin);
      by apply list_elem_of_singleton in Hin as ->.
  - unfold initConfig.dotTurn in Hin.
    destruct (strings.Split addr "@") as [|a [|n [|? ?]]];
      try (by apply elem_of_nil in Hin).
    destruct (String.eqb a ""); simpl in Hin;
      [by apply elem_of_nil in Hin|].
    destruct (String.eqb n ""); simpl in Hin;
      [by apply elem_of_nil in Hin|].
    by apply list_elem_of_singleton in Hin as ->.
  - unfold initConfig.dohTurn in Hin.
    destruct (initConfig.dohRegMatch addr);
      [|by apply elem_of_nil in Hin].
    by apply list_elem_of_singleton in Hin as ->.
Qed.

(** X6: what [initConfig] stores for one group.  It fails only when the
    group names an address set and the set cannot be created.  Otherwise
    every caller of the group carries one and the same dialer: none when no
    proxy address is configured, and otherwise whatever [proxy.SOCKS5]
    returned for the configured address, which is none again when that call
    failed, its error being dropped.  So a caller goes through a proxy
    dialer [d] exactly when a proxy address is configured and
    [proxy.SOCKS5] returned [d] for it.  The group has an address set
    exactly when a set name is configured; and the stored TTL is never
    negative: it is the configured TTL when that is positive and a set is
    named, and 0 in all other cases. *)
Theorem buildGroup_result socks5 ipsetNew group :
  match initConfig.buildGroup socks5 ipsetNew group with
  | inl g =>
      initConfig.Callers g =
        initConfig.groupCallers
          (if String.eqb (initConfig.Socks5 group) "" then None
           else socks5 (initConfig.Socks5 group)) group /\
      (forall c,
         c ∈ initConfig.Callers g ->
         callerDialer c =
           (if String.eqb (initConfig.Socks5 group) "" then None
            else socks5 (initConfig.Socks5 group)) /\
         (initConfig.Socks5 group = "" -> callerDialer c = None) /\
         (forall d,
            callerDialer c = Some d <->
            initConfig.Socks5 group <> "" /\
            socks5 (initConfig.Socks5 group) = Some d)) /\
      (initConfig.IPSet g = None <-> initConfig.IPSetName group = "") /\
      (0 <= initConfig.IPSetTTL' g)%Z /\
      initConfig.IPSetTTL' g =
        (if String.eqb (initConfig.IPSetName group) "" then 0
         else Z.max 0 (initConfig.IPSetTTL group))%Z
  | inr err =>
      initConfig.IPSetName group <> "" /\
      ipsetNew (initConfig.IPSetName group) = inr err
  end.
Proof.
  assert (Hcallers : forall c,
            c ∈ initConfig.groupCallers
                  (if negb (String.eqb (initConfig.Socks5 group) "")
                   then socks5 (initConfig.Socks5 group) else None) group ->
            callerDialer c =
              (if String.eqb (initConfig.Socks5 group) "" then None
               else socks5 (initConfig.Socks5 group)) /\
            (initConfig.Socks5 group = "" -> callerDialer c = None) /\
            (forall d,
               callerDialer c = Some d <->
               initConfig.Socks5 group <> "" /\
               socks5 (initConfig.Socks5 group) = Some d)).
  { intros c Hin. apply groupCallers_dialer in Hin. rewrite Hin.
    destruct (String.eqb (initConfig.Socks5 group) "") eqn:Es; simpl.
    - apply String.eqb_eq in Es.
      split; [done|]. split; [done|].
      intros d. split; [done|]. by intros [Hne _].
    - apply String.eqb_neq in Es.
      split; [done|]. split; [done|].
      intros d. split; [done|]. by intros [_ ?]. }
  unfold initConfig.buildGroup.
  destruct (String.eqb (initConfig.IPSetName group) "") eqn:En; simpl.
  - apply String.eqb_eq in En.
    split; [by destruct (String.eqb (initConfig.Socks5 group) "")|].
    split; [exact Hcallers|].
    repeat split; try done.
  - apply String.eqb_neq in En.
    destruct (ipsetNew (initConfig.IPSetName group)) as [set|err]; [|done].
    simpl.
    split; [by destruct (String.eqb (initConfig.Socks5 group) "")|].
    split; [exact Hcallers|].
    repeat split; try done.
    + destruct (0 <? initConfig.IPSetTTL group)%Z eqn:E; [|done].
      apply Z.ltb_lt in E. lia.
    + destruct (0 <? initConfig.IPSetTTL group)%Z eqn:E.
      * apply Z.ltb_lt in E. lia.
      * apply Z.ltb_ge in E. lia.
Qed.

Lemma buildGroups_all_built socks5 ipsetNew order acc :
  NoDup order.*1 ->
  (forall name g, (name, g) ∈ order -> is_Some (builtGroup socks5 ipsetNew g)) ->
  initConfig.buildGroups socks5 ipsetNew order acc =
    inl (omap (builtGroup socks5 ipsetNew) (list_to_map order : gmap string _) ∪ acc).
Proof.
  revert acc. induction order as [|[name g] rest IH]; intros acc Hnd Hall.
  - simpl. by rewrite omap_empty, (left_id_L ∅ (∪)).
  - rewrite fmap_cons in Hnd. apply NoDup_cons in Hnd as [Hfresh Hnd].
    destruct (Hall name g) as [t Ht]; [left|].
    unfold builtGroup in Ht. simpl.
    destruct (initConfig.buildGroup socks5 ipsetNew g) as [t'|err] eqn:Eb;
      [|done].
    injection Ht as ->.
    rewrite IH; [|done|intros n g' Hin; apply (Hall n g'); by right].
    f_equal.
    rewrite (omap_insert_Some _ _ _ _ t)
      by (unfold builtGroup; by rewrite Eb).
    rewrite <- insert_union_l. symmetry. apply insert_union_r.
    rewrite lookup_omap.
    by rewrite (not_elem_of_list_to_map_1 _ _ Hfresh).
Qed.

Lemma buildGroups_fatal socks5 ipsetNew order acc name g :
  (name, g) ∈ order ->
  builtGroup socks5 ipsetNew g = None ->
  exists err, initConfig.buildGroups socks5 ipsetNew order acc = inr err.
Proof.
  intros Hin Hnone. revert acc.
  induction order as [|[n g'] rest IH]; intros acc;
    [by apply elem_of_nil in Hin|].
  simpl. unfold builtGroup in *.
  destruct (initConfig.buildGroup socks5 ipsetNew g') as [t|err] eqn:Eb;
    [|by exists err].
  apply elem_of_cons in Hin as [[= -> ->]|Hin].
  - by rewrite Eb in Hnone.
  - by apply IH.
Qed.

(** X7: the group map [initConfig] builds does not depend on the order in
    which the runtime visits the configured groups: when every group can
    be built, it holds exactly the configured names, each with its built
    group; when some group cannot be built, the process stops, whatever
    the order. *)
Theorem buildGroups_order_independent socks5 ipsetNew
    (m : gmap string initConfig.groupStruct) choice :
  ((forall name g, m !! name = Some g -> is_Some (builtGroup socks5 ipsetNew g)) ->
   initConfig.buildGroups socks5 ipsetNew (rangeMap choice m) ∅ =
     inl (omap (builtGroup socks5 ipsetNew) m) /\
   forall name,
     is_Some (omap (builtGroup socks5 ipsetNew) m !! name) <-> is_Some (m !! name)) /\
  (forall name g,
     m !! name = Some g ->
     builtGroup socks5 ipsetNew g = None ->
     exists err,
       initConfig.buildGroups socks5 ipsetNew (rangeMap choice m) ∅ = inr err).
Proof.
  split.
  - intros Hall. split.
    + rewrite buildGroups_all_built.
      * rewrite (right_id_L ∅ (∪)). f_equal. f_equal.
        rewrite (list_to_map_proper (rangeMap choice m) (map_to_list m)).
        -- apply list_to_map_to_list.
        -- rewrite rangeMap_Permutation. apply NoDup_fst_map_to_list.
        -- apply rangeMap_Permutation.
      * rewrite rangeMap_Permutation. apply NoDup_fst_map_to_list.
      * intros name g Hin. apply rangeMap_elem in Hin. eauto.
    + intros name. rewrite lookup_omap.
      destruct (m !! name) as [g|] eqn:Em; simpl.
      * split; [eauto|]. intros _. by apply (Hall name g).
      * done.
  - intros name g Hm Hnone.
    apply (buildGroups_fatal _ _ _ _ name g); [|done].
    by apply rangeMap_elem.
Qed.

(** X9: the final check of [initConfig] lets the process start exactly
    when the groups ["clean"] and ["dirty"] both exist and each has at
    least one caller; a missing group counts as a group without callers. *)
Theorem groupsUsable_iff (groupMap : gmap string initConfig.tsGroup) :
  initConfig.groupsUsable groupMap = true <->
  (exists g, groupMap !! "clean" = Some g /\ initConfig.Callers g <> []) /\
  (exists g, groupMap !! "dirty" = Some g /\ initConfig.Callers g <> []).
Proof.
  unfold initConfig.groupsUsable.
  rewrite negb_true_iff, !orb_false_iff, !Nat.leb_gt.
  split.
  - intros [[_ Hc] Hd]. split.
    + destruct (groupMap !! "clean") as [g|]; simpl in Hc; [|lia].
      exists g. split; [done|].
      intros Hnil. rewrite Hnil in *. simpl in *. lia.
    + destruct (groupMap !! "dirty") as [g|]; simpl in Hd; [|lia].
      exists g. split; [done|].
      intros Hnil. rewrite Hnil in *. simpl in *. lia.
  - intros [(gc & Hc & Hcn) (gd & Hd & Hdn)].
    rewrite Hc, Hd. simpl.
    assert (groupMap <> ∅) as Hne
      by (intros ->; by rewrite lookup_empty in Hc).
    apply map_size_non_empty_iff in Hne.
    destruct (initConfig.Callers gc), (initConfig.Callers gd); simpl; try done.
    repeat split; lia.
Qed.

Lemma wrap64_small z :
  (- 2 ^ 63 <= z < 2 ^ 63)%Z -> initConfig.wrap64 z = z.
Proof.
  intros H. unfold initConfig.wrap64.
  rewrite Z.mod_small by lia. lia.
Qed.

(** X8: the cache parameters.  The minimum TTL never exceeds the maximum
    TTL, whatever is configured, overflow of the duration arithmetic
    included.  For non-zero settings of at most 9223372036 seconds in
    absolute value nothing overflows: the minimum is the configured one and
    the maximum is the larger of the two settings. *)
Theorem cacheParams_ttl c :
  (snd (fst (initConfig.cacheParams c)) <= snd (initConfig.cacheParams c))%Z /\
  (initConfig.MinTTL c <> 0%Z -> initConfig.MaxTTL c <> 0%Z ->
   (Z.abs (initConfig.MinTTL c) <= 9223372036)%Z ->
   (Z.abs (initConfig.MaxTTL c) <= 9223372036)%Z ->
   initConfig.cacheParams c =
     ((if (initConfig.Size c =? 0)%Z then 4096 else initConfig.Size c)%Z,
      (initConfig.Second * initConfig.MinTTL c)%Z,
      (initConfig.Second * Z.max (initConfig.MinTTL c) (initConfig.MaxTTL c))%Z)).
Proof.
  split.
  - unfold initConfig.cacheParams. simpl.
    match goal with
    | |- context [(?a <? ?b)%Z] => destruct (a <? b)%Z eqn:E
    end.
    + lia.
    + by apply Z.ltb_ge in E.
  - intros Hmin Hmax Hbmin Hbmax. unfold initConfig.cacheParams.
    apply Z.eqb_neq in Hmin, Hmax. rewrite Hmin, Hmax. simpl negb. cbv iota.
    unfold initConfig.Second in *.
    rewrite !wrap64_small by lia.
    destruct (initConfig.Size c =? 0)%Z; simpl negb; cbv iota;
      match goal with
      | |- context [(?a <? ?b)%Z] => destruct (a <? b)%Z eqn:E
      end;
      [apply Z.ltb_lt in E|apply Z.ltb_ge in E
      |apply Z.ltb_lt in E|apply Z.ltb_ge in E];
      repeat f_equal; lia.
Qed.

Lemma cacheParams_ttl_witness :
  initConfig.cacheParams (initConfig.mkCacheStruct 0 600 60) =
    (4096, 600000000000, 600000000000)%Z.
Proof.
  destruct (cacheParams_ttl (initConfig.mkCacheStruct 0 600 60)) as [_ H].
  rewrite H; simpl; try reflexivity; lia.
Defined.

Lemma buildGroups_order_independent_witness :
  initConfig.buildGroups (fun _ => Some 1%nat) (fun _ => inl 3%nat)
    (rangeMap (fun _ => 1%nat)
       (<["clean" := initConfig.mkGroupStruct "" "" 0 ["8.8.8.8"] [] [] []]>
          (<["dirty" := initConfig.mkGroupStruct "127.0.0.1:1080" "gfw" 60
                          ["1.1.1.1/tcp"] [] [] []]> ∅)))
    ∅ =
  inl (omap (builtGroup (fun _ => Some 1%nat) (fun _ => inl 3%nat))
         (<["clean" := initConfig.mkGroupStruct "" "" 0 ["8.8.8.8"] [] [] []]>
            (<["dirty" := initConfig.mkGroupStruct "127.0.0.1:1080" "gfw" 60
                            ["1.1.1.1/tcp"] [] [] []]> ∅))).
Proof.
  apply (buildGroups_order_independent (fun _ => Some 1%nat)
           (fun _ => inl 3%nat)).
  intros name g _. unfold builtGroup, initConfig.buildGroup.
  destruct (negb (String.eqb (initConfig.IPSetName g) "")); simpl; eauto.
Defined.

(** ** The transport callers: attempts and resources *)

Lemma call_run env client request address dialer w :
  exists res new,
    outbound.call env client request address dialer w =
      (Ok res, mkWorld (trace w ++ new) (httpClientTransport w)) /\
    length (outboundStarts new) <= 1 /\
    connsClosed new = connsOpened new /\
    bodiesOpened new = [] /\ bodiesClosed new = [] /\
    Forall (fun c => exists raw, connsOpened new = [raw] /\
                                 c = wrapConn client raw) (connsUsed new) /\
    match dialer with
    | None => dials new = [] /\ connsUsed new = []
    | Some d =>
        exchanges new = [] /\
        (new = [] \/ dials new = [(d, "tcp", address)])
    end.
Proof.
  unfold outbound.call.
  destruct request as [req|]; [|exists (None, Some outbound.errEmpty), []].
  2: { rewrite app_nil_r. destruct w. repeat split; simpl; auto.
       destruct dialer; auto. }
  destruct ((length (Question req) <=? 0)%nat || String.eqb address "").
  { exists (None, Some outbound.errEmpty), []. rewrite app_nil_r. destruct w.
    repeat split; simpl; auto. destruct dialer; auto. }
  destruct dialer as [d|]; run_step.
  - destruct (Dial env (trace w) d "tcp" address) as [conn|e] eqn:Hd; simpl.
    + unfold withDefer. run_step. fold (wrapConn client conn).
      destruct (WriteMsg env _ (wrapConn client conn) req) as [e|] eqn:Hw;
        simpl.
      * eexists _, [_; _; _]. flatten_trace. repeat split; simpl; auto.
        repeat constructor. by exists conn.
      * destruct (ReadMsg env _ (wrapConn client conn)) as [r err] eqn:Hr.
        simpl.
        eexists _, [_; _; _; _]. flatten_trace. repeat split; simpl; auto.
        repeat constructor; by exists conn.
    + eexists _, [_]. repeat split; simpl; auto.
  - destruct (Exchange env (trace w) client req address) as [r err] eqn:He.
    simpl. eexists _, [_]. repeat split; simpl; auto.
Qed.

Lemma DoHCall_run env Url Dialer req w :
  exists res new transport,
    outbound.DoHCall env Url Dialer (Some req) w =
      (Ok res, mkWorld (trace w ++ new) transport) /\
    transport = match Dialer, Pack env req with
                | Some d, inl _ => Some d
                | _, _ => httpClientTransport w
                end /\
    length (outboundStarts new) <= 1 /\
    connsOpened new = [] /\ connsClosed new = [] /\
    bodiesClosed new = bodiesOpened new /\
    posts new =
      match Pack env req with
      | inl buf => [(transport, Url, "application/dns-message", buf)]
      | inr _ => []
      end /\
    match res with
    | (Some msg, None) =>
        exists resp bytes,
          In (EvReadAll resp (inl bytes)) new /\ Unpack env bytes = inl msg
    | (None, Some err) => True
    | _ => False
    end.
Proof.
  unfold outbound.DoHCall.
  destruct (Pack env req) as [buf|e] eqn:Hpack.
  2: { exists (None, Some e), [], (httpClientTransport w).
       rewrite app_nil_r. destruct w, Dialer; repeat split; simpl; auto. }
  unfold io_HttpPost, outbound.setTransport, withDefer, io_ReadAll.
  destruct Dialer as [d|]; run_step.
  - destruct (HttpPost env (trace w) (Some d) Url _ buf) as [resp|err]; simpl.
    + destruct (ReadAll env _ resp) as [bytes|err] eqn:Hread; simpl.
      * destruct (Unpack env bytes) as [msg|err] eqn:Hun; simpl;
          eexists _, [_; _; _], _; flatten_trace;
          (repeat split; simpl; auto).
        exists resp, bytes. split; [right; left; reflexivity|done].
      * eexists _, [_; _; _], _; flatten_trace; repeat split; simpl; auto.
    + eexists _, [_], _; repeat split; simpl; auto.
  - destruct (HttpPost env (trace w) (httpClientTransport w) Url _ buf)
      as [resp|err]; simpl.
    + destruct (ReadAll env _ resp) as [bytes|err] eqn:Hread; simpl.
      * destruct (Unpack env bytes) as [msg|err] eqn:Hun; simpl;
          eexists _, [_; _; _], _; flatten_trace;
          (repeat split; simpl; auto).
        exists resp, bytes. split; [right; left; reflexivity|done].
      * eexists _, [_; _; _], _; flatten_trace; repeat split; simpl; auto.
    + eexists _, [_], _; repeat split; simpl; auto.
Qed.

(** X10: one call of any caller makes at most one attempt (one direct
    exchange, one dial or one HTTP post) and never a second one; every
    proxy connection it opens it closes, and every HTTP response body it
    obtains it closes, before it returns; it never ends the process. *)
Theorem Call_single_attempt_and_release env caller request w :
  exists res new transport,
    outbound.Call env caller request w =
      (res, mkWorld (trace w ++ new) transport) /\
    (forall c, res <> Exited c) /\
    length (outboundStarts new) <= 1 /\
    connsClosed new = connsOpened new /\
    bodiesClosed new = bodiesOpened new.
Proof.
  assert (Hcall : forall cl a d,
             exists res new transport,
               outbound.call env cl request a d w =
                 (res, mkWorld (trace w ++ new) transport) /\
               (forall c, res <> Exited c) /\
               length (outboundStarts new) <= 1 /\
               connsClosed new = connsOpened new /\
               bodiesClosed new = bodiesOpened new).
  { intros cl a d.
    destruct (call_run env cl request a d w)
      as (res & new & Hrun & Hone & Hconn & Hbo & Hbc & _).
    exists (Ok res), new, (httpClientTransport w).
    rewrite Hrun, Hbo, Hbc. repeat split; auto; discriminate. }
  destruct caller as [a d|a d|a d c|u d]; simpl; try apply Hcall.
  clear Hcall. destruct request as [req|].
  - destruct (DoHCall_run env u d req w)
      as (res & new & tp & Hrun & _ & Hone & Hco & Hcc & Hb & _).
    exists (Ok res), new, tp. rewrite Hrun, Hco, Hcc.
    repeat split; auto; discriminate.
  - exists (Panicked NilDereference), [], (httpClientTransport w).
    rewrite app_nil_r. destruct w. repeat split; simpl; auto; discriminate.
Qed.

(** X11: through a proxy, the callers built on [call] never use the
    direct exchange of the DNS client: they dial the upstream address over
    ["tcp"], the UDP caller included, and talk only on the dialed
    connection, which the TLS caller first wraps in TLS with its own
    configuration; without a proxy they dial nothing. *)
Theorem call_through_proxy env client request address w :
  (forall d,
     exists res new,
       outbound.call env client request address (Some d) w =
         (Ok res, mkWorld (trace w ++ new) (httpClientTransport w)) /\
       exchanges new = [] /\
       (new = [] \/ dials new = [(d, "tcp", address)]) /\
       Forall (fun c => exists raw, connsOpened new = [raw] /\
                                    c = wrapConn client raw) (connsUsed new)) /\
  (exists res new,
     outbound.call env client request address None w =
       (Ok res, mkWorld (trace w ++ new) (httpClientTransport w)) /\
     dials new = [] /\ connsUsed new = []) /\
  (forall raw serverName skipVerify a dl,
     outbound.NewTLSCaller a dl serverName skipVerify =
       outbound.TLSCaller a dl (mkClient "tcp-tls" (Some (mkTLSConfig serverName skipVerify))) /\
     wrapConn (mkClient "tcp-tls" (Some (mkTLSConfig serverName skipVerify))) raw =
       TLSConn raw (Some (mkTLSConfig serverName skipVerify)) /\
     wrapConn outbound.udpClient raw = raw /\
     wrapConn outbound.tcpClient raw = raw).
Proof.
  split; [|split].
  - intros d.
    destruct (call_run env client request address (Some d) w)
      as (res & new & Hrun & _ & _ & _ & _ & Hused & Hex & Hd).
    by exists res, new.
  - destruct (call_run env client request address None w)
      as (res & new & Hrun & _ & _ & _ & _ & _ & Hd & Hu).
    by exists res, new.
  - intros. repeat split.
Qed.

(** X12: the HTTPS caller, given a request, returns either a response
    without error or an error without response, never both and never
    neither.  A response is the unpacking of a body it read.  It posts at
    most once, to its own URL with content type
    ["application/dns-message"] and the packed request as body, and not at
    all when the request does not pack. *)
Theorem DoHCall_result env Url Dialer req w :
  exists res new transport,
    outbound.DoHCall env Url Dialer (Some req) w =
      (Ok res, mkWorld (trace w ++ new) transport) /\
    posts new =
      match Pack env req with
      | inl buf => [(transport, Url, "application/dns-message", buf)]
      | inr _ => []
      end /\
    match res with
    | (Some msg, None) =>
        exists resp bytes,
          In (EvReadAll resp (inl bytes)) new /\ Unpack env bytes = inl msg
    | (None, Some err) => True
    | _ => False
    end.
Proof.
  destruct (DoHCall_run env Url Dialer req w)
    as (res & new & tp & Hrun & _ & _ & _ & _ & _ & Hposts & Hres).
  by exists res, new, tp.
Qed.

(** X13: the proxy of the HTTPS callers is process-wide state.  A caller
    with a dialer installs it in the shared HTTP client before posting and
    nothing ever removes it, so a caller without dialer that is called
    afterwards posts through the dialer of the earlier caller. *)
Theorem DoHCall_proxy_leaks env url1 d req1 url2 req2 buf1 buf2 w :
  Pack env req1 = inl buf1 ->
  Pack env req2 = inl buf2 ->
  exists res1 w1 res2 new2,
    outbound.DoHCall env url1 (Some d) (Some req1) w = (Ok res1, w1) /\
    httpClientTransport w1 = Some d /\
    outbound.DoHCall env url2 None (Some req2) w1 =
      (Ok res2, mkWorld (trace w1 ++ new2) (Some d)) /\
    posts new2 = [(Some d, url2, "application/dns-message", buf2)].
Proof.
  intros Hp1 Hp2.
  destruct (DoHCall_run env url1 (Some d) req1 w)
    as (res1 & new1 & tp1 & Hrun1 & Htp1 & _).
  rewrite Hp1 in Htp1. subst tp1.
  destruct (DoHCall_run env url2 None req2 (mkWorld (trace w ++ new1) (Some d)))
    as (res2 & new2 & tp2 & Hrun2 & Htp2 & _ & _ & _ & _ & Hposts & _).
  rewrite Hp2 in Hposts. simpl in Htp2. subst tp2.
  exists res1, (mkWorld (trace w ++ new1) (Some d)), res2, new2.
  repeat split; auto.
Qed.

Lemma DoHCall_proxy_leaks_witness :
  exists res1 w1 res2 new2,
    outbound.DoHCall envDown "https://a.example/dns-query" (Some 7%nat)
      (Some (sampleRequest "example.org." TypeA)) world0 = (Ok res1, w1) /\
    httpClientTransport w1 = Some 7%nat /\
    outbound.DoHCall envDown "https://b.example/dns-query" None
      (Some (sampleRequest "example.com." TypeA)) w1 =
      (Ok res2, mkWorld (trace w1 ++ new2) (Some 7%nat)) /\
    posts new2 =
      [(Some 7%nat, "https://b.example/dns-query", "application/dns-message", [])].
Proof.
  apply (DoHCall_proxy_leaks envDown "https://a.example/dns-query" 7%nat
           (sampleRequest "example.org." TypeA)
           "https://b.example/dns-query"
           (sampleRequest "example.com." TypeA) [] [] world0);
    reflexivity.
Defined.

(** ** Orderly computations *)

Section Orderly.
Context {S : Type} `{Traced S} (P : Event -> Prop).

Lemma orderly_ret {A} (a : A) : orderly P (ret a : M S A).
Proof.
  intros s. exists []. unfold ret. simpl. rewrite app_nil_r.
  repeat split; auto; try discriminate.
Qed.

Lemma orderly_panic {A} p : orderly P (panic p : M S A).
Proof.
  intros s. exists []. unfold panic. simpl. rewrite app_nil_r.
  repeat split; auto; try discriminate.
Qed.

Lemma orderly_bind {A B} (m : M S A) (k : A -> M S B) :
  orderly P m -> (forall a, orderly P (k a)) -> orderly P (bind m k).
Proof.
  intros Hm Hk s. unfold orderlyAt, bind.
  destruct (Hm s) as (new1 & Ht1 & HP1 & Hc1 & Hx1).
  destruct (m s) as [[a|p|c] s1] eqn:Em; simpl in *.
  - destruct (Hk a s1) as (new2 & Ht2 & HP2 & Hc2 & Hx2).
    exists (new1 ++ new2). rewrite Ht2, Ht1, <- app_assoc.
    split; [done|]. split; [by apply Forall_app|].
    split; [|done].
    unfold connsClosed, connsOpened in *. by rewrite !omap_app, Hc1, Hc2.
  - exists new1. repeat split; auto; try discriminate.
  - by destruct (Hx1 c).
Qed.

Lemma orderly_withDefer {A} (body : M S A) (deferred : M S unit) :
  orderly P body -> orderly P deferred -> orderly P (withDefer body deferred).
Proof.
  intros Hb Hd s. unfold orderlyAt, withDefer.
  destruct (Hb s) as (new1 & Ht1 & HP1 & Hc1 & Hx1).
  destruct (body s) as [[a|p|c] s1] eqn:Eb; simpl in *.
  - destruct (Hd s1) as (new2 & Ht2 & HP2 & Hc2 & Hx2).
    exists (new1 ++ new2).
    destruct (deferred s1) as [[u|p|c] s2]; simpl in *;
      rewrite Ht2, Ht1, <- app_assoc;
      (split; [done|]); (split; [by apply Forall_app|]);
      (split; [unfold connsClosed, connsOpened in *;
               by rewrite !omap_app, Hc1, Hc2|]);
      try discriminate.
    by destruct (Hx2 c).
  - destruct (Hd s1) as (new2 & Ht2 & HP2 & Hc2 & Hx2).
    exists (new1 ++ new2).
    destruct (deferred s1) as [[u|p'|c] s2]; simpl in *;
      rewrite Ht2, Ht1, <- app_assoc;
      (split; [done|]); (split; [by apply Forall_app|]);
      (split; [unfold connsClosed, connsOpened in *;
               by rewrite !omap_app, Hc1, Hc2|]);
      try discriminate.
    by destruct (Hx2 c).
  - by destruct (Hx1 c).
Qed.

End Orderly.

Lemma orderly_emit P e :
  P e -> connNeutral e -> orderly P (emit e).
Proof.
  intros HP [Ho Hc] w. exists [e]. unfold emit. simpl.
  split; [done|]. split; [by constructor|].
  split; [|discriminate].
  unfold connsClosed, connsOpened. simpl. by rewrite Ho, Hc.
Qed.

Lemma orderly_ask P {A} (f : list Event -> A) : orderly P (ask f).
Proof.
  intros w. exists []. unfold ask. simpl. rewrite app_nil_r.
  repeat split; auto; try discriminate.
Qed.

Lemma orderly_liftW P {A} (m : M World A) :
  orderly P m -> orderly P (liftW m).
Proof.
  intros Hm f. unfold orderlyAt, liftW.
  destruct (Hm (world f)) as (new & Ht & HP & Hc & Hx).
  exists new. destruct (m (world f)) as [res w']. simpl in *.
  repeat split; auto.
Qed.

Lemma orderly_set_r P v : orderly P (set_r v).
Proof.
  intros f. exists []. unfold set_r. simpl.
  unfold traceOf, Frame_Traced. simpl. rewrite app_nil_r.
  repeat split; auto; try discriminate.
Qed.

Lemma orderly_get_r P : orderly P get_r.
Proof.
  intros f. exists []. unfold get_r. simpl. rewrite app_nil_r.
  repeat split; auto; try discriminate.
Qed.

Lemma orderly_logPrint P l : P (EvLog l) -> orderly P (logPrint l).
Proof. intros HP. apply orderly_emit; [done|by split]. Qed.

Lemma orderly_queryDns P env question server extra dialer :
  (forall e, isQueryEvent e = true -> P e) ->
  orderly P (queryDns env question server extra dialer).
Proof.
  intros HP w. unfold orderlyAt, queryDns. run_step.
  set (msg := SetQuestion _ _ _ _).
  destruct dialer as [d|]; simpl.
  - destruct (Dial env (trace w) d "tcp" server) as [conn|e] eqn:Hd; simpl.
    + destruct (WriteMsg env _ conn msg) as [e|] eqn:Hw; simpl.
      * eexists [_; _; _; _]. flatten_trace.
        split; [reflexivity|]. split; [|split; [reflexivity|discriminate]].
        repeat constructor; by apply HP.
      * destruct (ReadMsg env _ conn) as [r err] eqn:Hr; simpl.
        eexists [_; _; _; _; _]. flatten_trace.
        split; [reflexivity|]. split; [|split; [reflexivity|discriminate]].
        repeat constructor; by apply HP.
    + eexists [_; _]. flatten_trace.
      split; [reflexivity|]. split; [|split; [reflexivity|discriminate]].
      repeat constructor; by apply HP.
  - destruct (Exchange env (trace w) dnsClient0 msg server) as [r err] eqn:He.
    simpl. eexists [_; _]. flatten_trace.
    split; [reflexivity|]. split; [|split; [reflexivity|discriminate]].
    repeat constructor; by apply HP.
Qed.

Lemma orderly_getGroupName P env cfg domain :
  (forall order, P (EvRangeMap order)) ->
  (forall d res, P (EvIsBlocked d res)) ->
  orderly P (getGroupName env cfg domain).
Proof.
  intros H1 H2. unfold getGroupName.
  apply orderly_bind; [apply orderly_ask|]. intros order.
  apply orderly_bind; [apply orderly_emit; [done|by split]|]. intros _.
  unfold getGroupNameIn.
  destruct (suffixScan domain order); [apply orderly_ret|].
  unfold gfwDecision.
  apply orderly_bind; [apply orderly_emit; [done|by split]|]. intros _.
  destruct (GFWChecker_IsBlocked cfg domain) as [[] []]; apply orderly_ret.
Qed.

Lemma orderly_ipsetLoop P env set ttl answers :
  (forall s ip t res, P (EvIPSetAdd s ip t res)) ->
  (forall l, P (EvLog l)) ->
  orderly P (ipsetLoop env set ttl answers).
Proof.
  intros H1 H2. induction answers as [|[owner t ip|? ? ? ?] rest IH]; simpl.
  - apply orderly_ret.
  - apply orderly_bind.
    + unfold io_IPSetAdd.
      apply orderly_bind; [apply orderly_ask|]. intros res.
      apply orderly_bind; [apply orderly_emit; [done|by split]|]. intros _.
      apply orderly_ret.
    + intros err. apply orderly_bind; [|intros _; exact IH].
      destruct err; [by apply orderly_logPrint|apply orderly_ret].
  - exact IH.
Qed.

Lemma orderly_dispatchLoop P env question extra dialer servers :
  (forall e, isQueryEvent e = true -> P e) ->
  (forall l, P (EvLog l)) ->
  orderly P (dispatchLoop env question extra dialer servers).
Proof.
  intros H1 H2. induction servers as [|server rest IH]; simpl.
  - apply orderly_ret.
  - apply orderly_bind; [by apply orderly_liftW, orderly_queryDns|].
    intros [r err].
    apply orderly_bind; [apply orderly_set_r|]. intros _.
    apply orderly_bind.
    + destruct err; [by apply orderly_liftW, orderly_logPrint|apply orderly_ret].
    + intros _. destruct (isSome r); [apply orderly_ret|exact IH].
Qed.

Lemma orderly_hostsLoop P env readers i question :
  (forall j n q r, P (EvGenRecord j n q r)) ->
  (forall l, P (EvLog l)) ->
  orderly P (hostsLoop env readers i question).
Proof.
  intros H1 H2. revert i. induction readers as [|reader rest IH]; intros i; simpl.
  - apply orderly_ret.
  - destruct (dropLast (Name question)) as [hostname|]; [|apply orderly_panic].
    apply orderly_bind;
      [apply orderly_liftW, orderly_emit; [done|by split]|]. intros _.
    apply orderly_bind.
    + destruct (String.eqb (reader hostname (Qtype question)) "");
        [|apply orderly_ret].
      apply orderly_bind;
        [apply orderly_liftW, orderly_emit; [done|by split]|]. intros _.
      apply orderly_ret.
    + intros record.
      destruct (negb (String.eqb record "")); [|apply IH].
      apply orderly_bind.
      * destruct (NewRR env record);
          [apply orderly_set_r|by apply orderly_liftW, orderly_logPrint].
      * intros _. apply orderly_bind;
          [by apply orderly_liftW, orderly_logPrint|].
        intros _. apply orderly_ret.
Qed.

Lemma orderly_routeAndDispatch P env cfg question request :
  (forall e, isDispatchEvent e = true -> P e) ->
  orderly P (routeAndDispatch env cfg question request).
Proof.
  intros HP. unfold routeAndDispatch.
  apply orderly_bind.
  { apply orderly_liftW, orderly_getGroupName; intros; by apply HP. }
  intros [groupName reason].
  apply orderly_bind; [apply orderly_liftW, orderly_logPrint; by apply HP|].
  intros _.
  destruct (Groups cfg !! groupName) as [group|]; [|apply orderly_ret].
  apply orderly_bind.
  { apply orderly_dispatchLoop; intros; apply HP; [|done].
    by destruct e. }
  intros _.
  destruct (IPSet group) as [set|]; [|apply orderly_ret].
  apply orderly_bind; [apply orderly_get_r|]. intros [m|];
    [|apply orderly_panic].
  apply orderly_liftW, orderly_ipsetLoop; intros; by apply HP.
Qed.

(** The body of the handler once the loop guard is passed. *)
Lemma orderly_ServeDNS_body P env cfg request question rest :
  Question request = question :: rest ->
  (strings.Count (Name question) ".ne-" <= 1)%nat ->
  (forall e, isDispatchEvent e = true -> P e) ->
  (forall q x r, P (EvCacheGet q x r)) ->
  (N.eqb (Qtype question) TypeA || N.eqb (Qtype question) TypeAAAA = true ->
   forall j n q r, P (EvGenRecord j n q r)) ->
  orderly P (ServeDNS_body env cfg request).
Proof.
  intros Hq Hcount Hd Hc Hh. unfold ServeDNS_body. rewrite Hq.
  assert ((1 <? strings.Count (Name question) ".ne-")%nat = false) as ->
    by (apply Nat.ltb_ge; lia).
  apply orderly_bind.
  { destruct (N.eqb (Qtype question) TypeA || N.eqb (Qtype question) TypeAAAA);
      [|apply orderly_ret].
    apply orderly_hostsLoop; [by apply Hh|intros; by apply Hd]. }
  intros [|]; [apply orderly_ret|].
  apply orderly_bind.
  { apply orderly_liftW. unfold getDNSCache.
    apply orderly_bind; [apply orderly_ask|]. intros res.
    apply orderly_bind; [apply orderly_emit; [done|by split]|]. intros _.
    apply orderly_ret. }
  intros cached.
  apply orderly_bind; [apply orderly_set_r|]. intros _.
  destruct (isSome cached).
  - apply orderly_liftW, orderly_logPrint. by apply Hd.
  - by apply orderly_routeAndDispatch.
Qed.

(** ** The handler as a whole *)

Lemma Forall_omap_nil {A} (f : Event -> option A) (l : list Event) :
  Forall (fun e => f e = None) l -> omap f l = [].
Proof.
  induction 1 as [|e l He _ IH]; [done|].
  change (omap f (e :: l)) with (match f e with Some y => y :: omap f l | None => omap f l end).
  by rewrite He.
Qed.

Lemma world_eta (w : World) : mkWorld (trace w) (httpClientTransport w) = w.
Proof. by destruct w. Qed.

(** X14: whatever the request and the environment, the handler writes at
    most one reply, stamped as the reply to this request, and closes the
    response writer as its very last action, on normal return and on panic
    alike; the only other way out is the fatal exit of the loop guard,
    which writes nothing but its log line.  Every proxy connection opened
    while handling the request has been closed by then. *)
Theorem ServeDNS_one_reply_then_close env cfg request w :
  exists res new transport,
    ServeDNS env cfg request w = (res, mkWorld (trace w ++ new) transport) /\
    connsClosed new = connsOpened new /\
    ((res = Exited 1 /\ new = [EvLog LogFatalRecursive] /\
      exists question rest,
        Question request = question :: rest /\
        (1 < strings.Count (Name question) ".ne-")%nat) \/
     ((forall c, res <> Exited c) /\
      exists body,
        Forall (fun e => isBodyEvent e = true) body /\
        (new = body ++ [EvRespClose] \/
         exists m,
           new = body ++ [EvRespWriteMsg (SetReply m request); EvRespClose]))).
Proof.
  destruct (Question request) as [|question rest] eqn:Hq.
  { exists (Panicked IndexOutOfRange), [EvRespClose], (httpClientTransport w).
    unfold ServeDNS, withDefer, ServeDNS_body. rewrite Hq.
    split; [reflexivity|]. split; [reflexivity|].
    right. split; [discriminate|]. exists []. split; [constructor|by left]. }
  destruct (1 <? strings.Count (Name question) ".ne-")%nat eqn:Hguard.
  { exists (Exited 1), [EvLog LogFatalRecursive], (httpClientTransport w).
    unfold ServeDNS, withDefer, ServeDNS_body. rewrite Hq, Hguard.
    split; [reflexivity|]. split; [reflexivity|].
    left. repeat split. exists question, rest. split; [done|].
    by apply Nat.ltb_lt. }
  apply Nat.ltb_ge in Hguard.
  destruct (orderly_ServeDNS_body (fun e => isBodyEvent e = true)
              env cfg request question rest Hq Hguard)
    with (s := mkFrame None w) as (body & Ht & HP & Hc & Hx).
  { intros e He. by destruct e. }
  { done. }
  { done. }
  unfold ServeDNS, withDefer.
  destruct (ServeDNS_body env cfg request (mkFrame None w))
    as [[[]|p|c] [r w']] eqn:Ebody; simpl in *;
    unfold traceOf, Frame_Traced in Ht; simpl in Ht;
    try (by destruct (Hx c)).
  - unfold ServeDNS_deferred. run_step. destruct r as [m|]; simpl.
    + exists (Ok tt), (body ++ [EvRespWriteMsg (SetReply m request); EvRespClose]),
        (httpClientTransport w').
      rewrite Ht. flatten_trace. split; [done|].
      split.
      { unfold connsClosed, connsOpened in *. rewrite !omap_app, Hc. done. }
      right. split; [discriminate|]. exists body. split; [done|].
      right. by exists m.
    + exists (Ok tt), (body ++ [EvRespClose]), (httpClientTransport w').
      rewrite Ht. flatten_trace. split; [done|].
      split.
      { unfold connsClosed, connsOpened in *. rewrite !omap_app, Hc. done. }
      right. split; [discriminate|]. exists body. split; [done|]. by left.
  - unfold ServeDNS_deferred. run_step. destruct r as [m|]; simpl.
    + exists (Panicked p),
        (body ++ [EvRespWriteMsg (SetReply m request); EvRespClose]),
        (httpClientTransport w').
      rewrite Ht. flatten_trace. split; [done|].
      split.
      { unfold connsClosed, connsOpened in *. rewrite !omap_app, Hc. done. }
      right. split; [discriminate|]. exists body. split; [done|].
      right. by exists m.
    + exists (Panicked p), (body ++ [EvRespClose]), (httpClientTransport w').
      rewrite Ht. flatten_trace. split; [done|].
      split.
      { unfold connsClosed, connsOpened in *. rewrite !omap_app, Hc. done. }
      right. split; [discriminate|]. exists body. split; [done|]. by left.
Qed.

(** X15: for a question whose type is neither A nor AAAA the handler
    never consults a hosts reader. *)
Theorem ServeDNS_hosts_only_for_addresses env cfg request question rest w :
  Question request = question :: rest ->
  Qtype question <> TypeA ->
  Qtype question <> TypeAAAA ->
  exists new,
    trace (snd (ServeDNS env cfg request w)) = trace w ++ new /\
    genRecordCalls new = [].
Proof.
  intros Hq HA HAAAA.
  destruct (1 <? strings.Count (Name question) ".ne-")%nat eqn:Hguard.
  { exists [EvLog LogFatalRecursive].
    unfold ServeDNS, withDefer, ServeDNS_body. rewrite Hq, Hguard.
    split; reflexivity. }
  apply Nat.ltb_ge in Hguard.
  set (P := fun e => genRecordCallOf e = None).
  assert (Hbody : orderly P (ServeDNS_body env cfg request)).
  { apply (orderly_ServeDNS_body P env cfg request question rest Hq Hguard).
    - intros e He. by destruct e.
    - done.
    - intros Haddr. apply orb_true_iff in Haddr as [H|H];
        apply N.eqb_eq in H; contradiction. }
  assert (Hdef : orderly P (ServeDNS_deferred request)).
  { unfold ServeDNS_deferred.
    apply orderly_bind; [apply orderly_get_r|]. intros r.
    apply orderly_bind.
    - destruct r as [m|]; [|apply orderly_ret].
      apply orderly_bind; [apply orderly_set_r|]. intros _.
      apply orderly_liftW, orderly_emit; [done|by split].
    - intros _. apply orderly_liftW, orderly_emit; [done|by split]. }
  destruct (orderly_withDefer P _ _ Hbody Hdef (mkFrame None w))
    as (new & Ht & HP & _ & _).
  exists new. unfold ServeDNS.
  destruct (withDefer _ _ (mkFrame None w)) as [res f].
  split; [exact Ht|]. by apply Forall_omap_nil.
Qed.

Lemma ServeDNS_hosts_only_for_addresses_witness :
  exists new,
    trace (snd (ServeDNS envUp sampleConfig (sampleRequest "router." 16) world0)) =
      [] ++ new /\
    genRecordCalls new = [].
Proof.
  apply (ServeDNS_hosts_only_for_addresses envUp sampleConfig
           (sampleRequest "router." 16)
           (mkQuestion "router." 16 ClassINET) [] world0);
    [reflexivity|discriminate|discriminate].
Defined.

(** The hosts phase when no reader has a record: only lookups happen. *)
Lemma hostsSilent_lookups env cfg question f :
  hostsSilent cfg question = true ->
  exists new,
    (if N.eqb (Qtype question) TypeA || N.eqb (Qtype question) TypeAAAA
     then hostsLoop env (hostsReaders cfg) 0 question
     else ret false) f =
      (Ok false,
       mkFrame (var_r f)
         (mkWorld (trace (world f) ++ new) (httpClientTransport (world f)))) /\
    Forall (fun e => isCacheOrDispatch e = false) new /\
    replies new = [] /\ cacheWrites new = [].
Proof.
  intros Hs.
  destruct (hostsSilent_miss env cfg question f Hs) as (new & Hrun & _ & Hrep).
  exists new. split; [exact Hrun|].
  set (P := fun e => isCacheOrDispatch e = false /\ cacheWriteOf e = None).
  assert (Ho : orderly P
                 (if N.eqb (Qtype question) TypeA || N.eqb (Qtype question) TypeAAAA
                  then hostsLoop env (hostsReaders cfg) 0 question
                  else ret false)).
  { destruct (_ || _); [|apply orderly_ret].
    apply orderly_hostsLoop; by intros. }
  destruct (Ho f) as (new' & Ht & HP & _).
  rewrite Hrun in Ht. unfold traceOf, Frame_Traced in Ht. simpl in Ht.
  apply app_inv_head in Ht. subst new'.
  split; [|split; [done|]].
  - eapply Forall_impl; [exact HP|]. by intros e [].
  - apply Forall_omap_nil. eapply Forall_impl; [exact HP|]. by intros e [].
Qed.



Lemma getGroupName_no_cache_write env cfg domain w :
  exists new,
    getGroupName env cfg domain w =
      (Ok (routeAt env cfg (trace w) domain),
       mkWorld (trace w ++ new) (httpClientTransport w)) /\
    attempts new = [] /\ replies new = [] /\ cacheWrites new = [].
Proof.
  destruct (getGroupName_run env cfg domain w) as (new & Hrun & Hat & Hrep).
  exists new. repeat split; try done.
  destruct (orderly_getGroupName (fun e => cacheWriteOf e = None)
              env cfg domain ltac:(done) ltac:(done) w)
    as (new' & Ht & HP & _).
  rewrite Hrun in Ht. unfold traceOf, World_Traced in Ht. simpl in Ht.
  apply app_inv_head in Ht. subst new'. by apply Forall_omap_nil.
Qed.

Lemma routeAndDispatch_unknown env cfg question request f :
  Groups cfg !! (routeAt env cfg (trace (world f)) (Name question)).1 = None ->
  exists new,
    routeAndDispatch env cfg question request f =
      (Ok tt,
       mkFrame (var_r f)
         (mkWorld (trace (world f) ++ new) (httpClientTransport (world f)))) /\
    attempts new = [] /\ cacheWrites new = [] /\ replies new = [].
Proof.
  intros Hgroup. unfold routeAndDispatch.
  unfold bind at 1. unfold liftW at 1.
  destruct (getGroupName_no_cache_write env cfg (Name question) (world f))
    as (new1 & Hroute & Hat1 & Hrep1 & Hcw1).
  rewrite Hroute.
  destruct (routeAt env cfg (trace (world f)) (Name question)) as [g reason].
  simpl in Hgroup.
  unfold bind at 1. unfold liftW at 1, logPrint, emit. simpl.
  rewrite Hgroup.
  exists (new1 ++ [EvLog (LogMatchGroup (Name question) g reason)]).
  split; [unfold ret; by rewrite <- app_assoc|].
  unfold attempts, cacheWrites, replies in *.
  rewrite !omap_app, Hat1, Hrep1, Hcw1. done.
Qed.



(** The run of the address-set loop. *)
Lemma ipsetLoop_run env set ttl answers w :
  exists new,
    ipsetLoop env set ttl answers w =
      (Ok tt, mkWorld (trace w ++ new) (httpClientTransport w)) /\
    ipsetAdds new = List.map (fun ip => (set, ip, ttl)) (addressesOf answers) /\
    Forall (fun e =>
              match e with
              | EvIPSetAdd _ _ _ _ | EvLog (LogIPSetError _ _) => True
              | _ => False
              end) new.
Proof.
  revert w. induction answers as [|[owner t ip|? ? ? ?] rest IH]; intros w.
  - exists []. simpl. unfold ret. rewrite app_nil_r, world_eta. repeat split.
    constructor.
  - simpl. run_step.
    destruct (IPSetAdd env (trace w) set ip ttl) as [e|] eqn:Ha; simpl.
    + destruct (IH (mkWorld ((trace w ++ [EvIPSetAdd set ip ttl (Some e)]) ++
                             [EvLog (LogIPSetError ip e)])
                            (httpClientTransport w)))
        as (new & Hrun & Hadds & Hall).
      rewrite Hrun. simpl.
      exists (EvIPSetAdd set ip ttl (Some e) :: EvLog (LogIPSetError ip e) :: new).
      flatten_trace. split; [done|]. split.
      * unfold ipsetAdds, addressesOf in *. simpl. by rewrite Hadds.
      * by repeat constructor.
    + destruct (IH (mkWorld (trace w ++ [EvIPSetAdd set ip ttl None])
                            (httpClientTransport w)))
        as (new & Hrun & Hadds & Hall).
      rewrite Hrun. simpl.
      exists (EvIPSetAdd set ip ttl None :: new).
      flatten_trace. split; [done|]. split.
      * unfold ipsetAdds, addressesOf in *. simpl. by rewrite Hadds.
      * by repeat constructor.
  - simpl. apply IH.
Qed.


(** X20: the group name the router returns is ["clean"], ["dirty"], or
    the group of a configured suffix the domain ends with; the router never
    returns any other name. *)
Theorem getGroupName_range env cfg domain w :
  exists group reason,
    fst (getGroupName env cfg domain w) = Ok (group, reason) /\
    ((group = "clean" /\ (reason = "GFWList" \/ reason = "default")) \/
     (group = "dirty" /\ reason = "GFWList") \/
     exists suffix,
       suffixMap cfg !! suffix = Some group /\
       strings.HasSuffix domain suffix = true /\
       reason = "suffix " +:+ suffix).
Proof.
  rewrite getGroupName_routeAt. unfold routeAt.
  destruct (suffixScan domain _) as [[g reason]|] eqn:Hscan.
  - exists g, reason. split; [done|]. right. right.
    apply suffixScan_Some in Hscan as (s & g' & Hin & Hm & [= -> ->]).
    apply rangeMap_elem in Hin. by exists s.
  - destruct (GFWChecker_IsBlocked cfg domain) as [[] []];
      eexists _, _; (split; [reflexivity|]); auto.
Qed.

(** X21: an empty suffix in the table is a suffix of every domain: with
    such an entry every domain is routed by the suffix table and the
    classifier is never consulted. *)
Theorem getGroupName_empty_suffix env cfg group domain w :
  suffixMap cfg !! "" = Some group ->
  exists res order,
    getGroupName env cfg domain w =
      (Ok res, mkWorld (trace w ++ [EvRangeMap order]) (httpClientTransport w)) /\
    classifierCalls [EvRangeMap order] = [].
Proof.
  intros Hempty. rewrite getGroupName_unfold.
  set (order := rangeMap (rangeChoice env (trace w)) (suffixMap cfg)).
  unfold getGroupNameIn.
  destruct (suffixScan domain order) as [res|] eqn:Hscan.
  - by exists res, order.
  - rewrite suffixScan_None in Hscan.
    assert (Hin : ("", group) ∈ order) by (by apply rangeMap_elem).
    pose proof (Hscan "" group Hin) as Hno.
    rewrite HasSuffix_empty in Hno. discriminate.
Qed.

Lemma getGroupName_empty_suffix_witness :
  exists res order,
    getGroupName envDown
      (mkConfig (<["" := "dirty"]> ∅) sampleGroups [] (fun _ => (false, false)))
      "example.org." world0 =
      (Ok res, mkWorld ([] ++ [EvRangeMap order]) None) /\
    classifierCalls [EvRangeMap order] = [].
Proof.
  apply (getGroupName_empty_suffix envDown _ "dirty" "example.org." world0).
  vm_compute. reflexivity.
Defined.

Lemma lastResponse_app_quiet tr1 tr2 :
  cacheWrites tr2 = [] -> lastResponse (tr1 ++ tr2) = lastResponse tr1.
Proof.
  intros H. unfold lastResponse, cacheWrites in *.
  by rewrite omap_app, H, app_nil_r.
Qed.

Lemma lastResponse_quiet_app tr1 tr2 :
  cacheWrites tr1 = [] -> lastResponse (tr1 ++ tr2) = lastResponse tr2.
Proof.
  intros H. unfold lastResponse, cacheWrites in *.
  by rewrite omap_app, H.
Qed.

Lemma dispatchLoop_last_response env question extra dialer servers f :
  var_r f = None ->
  exists f' new,
    dispatchLoop env question extra dialer servers f = (Ok tt, f') /\
    trace (world f') = trace (world f) ++ new /\
    replies new = [] /\
    var_r f' = lastResponse new.
Proof.
  intros Hr.
  destruct (dispatchLoop_run env question extra dialer servers f)
    as (f' & new & rs & Hloop & Htr & _ & _ & Hcw & _ & Hend).
  exists f', new. split; [done|]. split; [done|]. split.
  - destruct (orderly_dispatchLoop (fun e => replyOf e = None)
                env question extra dialer servers) with (s := f)
      as (new' & Ht & HP & _).
    { intros e He. by destruct e. }
    { done. }
    rewrite Hloop in Ht. unfold traceOf, Frame_Traced in Ht. simpl in Ht.
    rewrite Htr in Ht. apply app_inv_head in Ht. subst new'.
    by apply Forall_omap_nil.
  - unfold lastResponse. rewrite Hcw.
    destruct Hend as [[-> Hv]|(n & m & -> & Hv)].
    + rewrite Hv.
      destruct servers as [|server rest]; [by rewrite Hr|].
      simpl length. rewrite replicate_S_end, List.map_app. simpl.
      by rewrite last_snoc.
    + rewrite List.map_app. simpl. by rewrite last_snoc.
Qed.

Lemma routeAndDispatch_result env cfg question request f :
  var_r f = None ->
  exists res f' new,
    routeAndDispatch env cfg question request f = (res, f') /\
    trace (world f') = trace (world f) ++ new /\
    replies new = [] /\
    var_r f' = lastResponse new /\
    forall c, res <> Exited c.
Proof.
  intros Hr. unfold routeAndDispatch.
  unfold bind at 1. unfold liftW at 1.
  destruct (getGroupName_no_cache_write env cfg (Name question) (world f))
    as (new1 & Hroute & _ & Hrep1 & Hcw1).
  rewrite Hroute.
  destruct (routeAt env cfg (trace (world f)) (Name question)) as [g reason].
  unfold bind at 1. unfold liftW at 1, logPrint, emit. simpl.
  set (pre := new1 ++ [EvLog (LogMatchGroup (Name question) g reason)]).
  assert (Hpre_cw : cacheWrites pre = []).
  { unfold pre, cacheWrites in *. by rewrite omap_app, Hcw1. }
  assert (Hpre_rep : replies pre = []).
  { unfold pre, replies in *. by rewrite omap_app, Hrep1. }
  replace ((trace (world f) ++ new1) ++
           [EvLog (LogMatchGroup (Name question) g reason)])
    with (trace (world f) ++ pre) by (unfold pre; by rewrite app_assoc).
  destruct (Groups cfg !! g) as [group|].
  2: { eexists _, _, pre. split; [reflexivity|]. simpl.
       split; [done|]. split; [done|]. split; [|discriminate].
       unfold lastResponse. by rewrite Hpre_cw. }
  unfold bind at 1.
  set (f1 := mkFrame _ _).
  destruct (dispatchLoop_last_response env question (Extra request)
              (Dialer group) (DNS group) f1 Hr)
    as (f2 & newd & Hloop & Htr & Hrepd & Hv).
  rewrite Hloop. subst f1. simpl in Htr.
  destruct (IPSet group) as [set|].
  2: { exists (Ok tt), f2, (pre ++ newd). unfold ret.
       split; [done|]. rewrite Htr, <- app_assoc. split; [done|].
       split; [unfold replies in *; by rewrite omap_app, Hpre_rep, Hrepd|].
       split; [by rewrite lastResponse_quiet_app|discriminate]. }
  unfold bind at 1, get_r at 1.
  destruct (var_r f2) as [m|] eqn:Hm.
  2: { exists (Panicked NilDereference), f2, (pre ++ newd). unfold panic.
       split; [done|]. rewrite Htr, <- app_assoc. split; [done|].
       split; [unfold replies in *; by rewrite omap_app, Hpre_rep, Hrepd|].
       split; [by rewrite lastResponse_quiet_app, <- Hv|discriminate]. }
  unfold liftW.
  destruct (ipsetLoop_run env set (IPSetTTL group) (Answer m) (world f2))
    as (newi & Hrun & _ & Hall).
  rewrite Hrun.
  assert (Hi_rep : replies newi = []).
  { apply Forall_omap_nil. eapply Forall_impl; [exact Hall|].
    intros e He. by destruct e. }
  assert (Hi_cw : cacheWrites newi = []).
  { apply Forall_omap_nil. eapply Forall_impl; [exact Hall|].
    intros e He. by destruct e. }
  eexists (Ok tt), _, (pre ++ newd ++ newi).
  split; [reflexivity|]. simpl.
  rewrite Htr, <- !app_assoc. split; [done|].
  split; [unfold replies in *;
          by rewrite !omap_app, Hpre_rep, Hrepd, Hi_rep|].
  split; [|discriminate].
  by rewrite lastResponse_quiet_app, lastResponse_app_quiet, <- Hv.
Qed.



(** X22: what [queryDns] sends upstream.  It sends at most one message,
    and that message asks one question with the name and the type of the
    client's question but always in class INET, whatever the class of the
    client's question; it asks for recursion, carries the client's extra
    records and no answer.  Through a proxy it dials the server over
    ["tcp"] and never uses the direct exchange; without a proxy it never
    dials. *)
Theorem queryDns_sends env question server extra dialer w :
  exists res new,
    queryDns env question server extra dialer w =
      (Ok res, mkWorld (trace w ++ new) (httpClientTransport w)) /\
    (length (sent new) <= 1)%nat /\
    Forall (fun m =>
              Question m = [mkQuestion (Name question) (Qtype question) ClassINET] /\
              RecursionDesired m = true /\
              Extra m = extra /\ Answer m = [] /\ Response m = false)
           (sent new) /\
    match dialer with
    | Some d => dials new = [(d, "tcp", server)] /\ exchanges new = []
    | None => dials new = [] /\ exchanges new = [(dnsClient0, server)]
    end.
Proof.
  unfold queryDns. run_step.
  destruct dialer as [d|]; simpl.
  - destruct (Dial env (trace w) d "tcp" server) as [conn|e] eqn:Hd; simpl.
    + destruct (WriteMsg env _ conn _) as [e|] eqn:Hw; simpl.
      * eexists _, [_; _; _; _]. flatten_trace.
        split; [reflexivity|]. simpl. split; [lia|].
        split; [by repeat constructor|done].
      * destruct (ReadMsg env _ conn) as [r err] eqn:Hr; simpl.
        eexists _, [_; _; _; _; _]. flatten_trace.
        split; [reflexivity|]. simpl. split; [lia|].
        split; [by repeat constructor|done].
    + eexists _, [_; _]. flatten_trace.
      split; [reflexivity|]. simpl. split; [lia|].
      split; [by repeat constructor|done].
  - destruct (Exchange env (trace w) dnsClient0 _ server) as [r err] eqn:He.
    simpl. eexists _, [_; _]. flatten_trace.
    split; [reflexivity|]. simpl. split; [lia|].
    split; [by repeat constructor|done].
Qed.

(** ** The hosts phase: the first record wins, or the cache is asked *)

(** Either no reader has a record for the question, or there is a first
    reader that has one. *)
Lemma readers_first_record (readers : list HostsReader) hostname name qtype :
  Forall (fun rd : HostsReader =>
            rd hostname qtype = "" /\ rd name qtype = "") readers \/
  exists pre reader post,
    readers = pre ++ reader :: post /\
    Forall (fun rd : HostsReader =>
              rd hostname qtype = "" /\ rd name qtype = "") pre /\
    recordOf reader hostname name qtype <> "".
Proof.
  induction readers as [|rd readers IH]; [by left|].
  destruct (String.eqb (rd hostname qtype) "") eqn:E1.
  - destruct (String.eqb (rd name qtype) "") eqn:E2.
    + apply String.eqb_eq in E1, E2.
      destruct IH as [IH|(pre & reader & post & -> & Hpre & Hrec)].
      * left. by constructor.
      * right. exists (rd :: pre), reader, post.
        split; [done|]. split; [by constructor|done].
    + right. exists [], rd, readers. split; [done|]. split; [constructor|].
      unfold recordOf. rewrite E1. by apply String.eqb_neq.
  - right. exists [], rd, readers. split; [done|]. split; [constructor|].
    unfold recordOf. rewrite E1. by apply String.eqb_neq.
Qed.

(** The handler once the hosts phase has found nothing: the cache lookup,
    then the logged hit or routing and dispatch, then the deferred
    closure. *)
Lemma ServeDNS_past_hosts env cfg request question rest w new1 :
  Question request = question :: rest ->
  (strings.Count (Name question) ".ne-" <= 1)%nat ->
  (if N.eqb (Qtype question) TypeA || N.eqb (Qtype question) TypeAAAA
   then hostsLoop env (hostsReaders cfg) 0 question
   else ret false) (mkFrame None w) =
    (Ok false,
     mkFrame None (mkWorld (trace w ++ new1) (httpClientTransport w))) ->
  ServeDNS env cfg request w =
    let cached := CacheLookup env (trace w ++ new1) question (Extra request) in
    match withDefer
            (if isSome cached
             then liftW (logPrint (LogHitCache (Name question)))
             else routeAndDispatch env cfg question request)
            (ServeDNS_deferred request)
            (mkFrame cached
               (mkWorld
                  (trace w ++ new1 ++ [EvCacheGet question (Extra request) cached])
                  (httpClientTransport w))) with
    | (res, f) => (res, world f)
    end.
Proof.
  intros Hq Hcount Hhosts.
  unfold ServeDNS, withDefer, ServeDNS_body. rewrite Hq.
  assert ((1 <? strings.Count (Name question) ".ne-")%nat = false) as ->
    by (apply Nat.ltb_ge; lia).
  unfold bind at 1. rewrite Hhosts. simpl.
  unfold bind at 1. unfold liftW at 1, getDNSCache, bind, ask, emit, ret.
  simpl. rewrite <- app_assoc. reflexivity.
Qed.

Lemma orderly_ServeDNS_deferred P request :
  (forall m, P (EvRespWriteMsg m)) -> P EvRespClose ->
  orderly P (ServeDNS_deferred request).
Proof.
  intros H1 H2. unfold ServeDNS_deferred.
  apply orderly_bind; [apply orderly_get_r|]. intros r.
  apply orderly_bind.
  - destruct r as [m|]; [|apply orderly_ret].
    apply orderly_bind; [apply orderly_set_r|]. intros _.
    apply orderly_liftW, orderly_emit; [done|by split].
  - intros _. apply orderly_liftW, orderly_emit; [done|by split].
Qed.

(** C7, as the code has it: for a request of type A or AAAA whose name is
    not empty and holds the loop marker at most once, the handler asks the
    hosts readers in their configured order, each first for the name
    without its last character (the trailing dot) and, on an empty answer,
    for the name itself.
    - The first reader with a non-empty record ends the request: when the
      record parses, the reply carries exactly that record as its answer;
      when it does not parse, the error is logged and no reply is written.
      Either way no cache lookup, routing or upstream call is made, and no
      later reader is asked.
    - When no reader has a record, every reader has been asked, in order,
      and the very next event is the cache lookup; no reader is asked
      again.
    One of the two cases always applies. *)
Theorem ServeDNS_hosts_shortcut env cfg request question rest hostname w :
  Question request = question :: rest ->
  (strings.Count (Name question) ".ne-" <= 1)%nat ->
  Qtype question = TypeA \/ Qtype question = TypeAAAA ->
  dropLast (Name question) = Some hostname ->
  (forall pre reader post,
     hostsReaders cfg = pre ++ reader :: post ->
     Forall (fun rd : HostsReader =>
               rd hostname (Qtype question) = "" /\
               rd (Name question) (Qtype question) = "") pre ->
     recordOf reader hostname (Name question) (Qtype question) <> "" ->
     exists lookups ending,
       ServeDNS env cfg request w =
         (Ok tt, mkWorld (trace w ++ lookups ++ ending) (httpClientTransport w)) /\
       genRecordCalls lookups =
         flat_map (fun j => [(j, hostname); (j, Name question)])
                  (seq 0 (length pre)) ++
         (length pre, hostname) ::
         (if String.eqb (reader hostname (Qtype question)) ""
          then [(length pre, Name question)] else []) /\
       ending =
         match NewRR env (recordOf reader hostname (Name question)
                            (Qtype question)) with
         | inl rr =>
             [EvLog (LogMatchHosts (Name question));
              EvRespWriteMsg (SetReply (mkMsg 0 false false [] [rr] []) request);
              EvRespClose]
         | inr err =>
             [EvLog (LogMakeRRError err); EvLog (LogMatchHosts (Name question));
              EvRespClose]
         end /\
       Forall (fun e => isCacheOrDispatch e = false) (lookups ++ ending)) /\
  (Forall (fun rd : HostsReader =>
             rd hostname (Qtype question) = "" /\
             rd (Name question) (Qtype question) = "") (hostsReaders cfg) ->
   exists res w' lookups tail,
     ServeDNS env cfg request w = (res, w') /\
     trace w' =
       trace w ++ lookups ++
       EvCacheGet question (Extra request)
         (CacheLookup env (trace w ++ lookups) question (Extra request)) :: tail /\
     genRecordCalls lookups =
       flat_map (fun j => [(j, hostname); (j, Name question)])
                (seq 0 (length (hostsReaders cfg))) /\
     Forall (fun e => isCacheOrDispatch e = false) lookups /\
     genRecordCalls tail = [] /\
     forall c, res <> Exited c) /\
  (Forall (fun rd : HostsReader =>
             rd hostname (Qtype question) = "" /\
             rd (Name question) (Qtype question) = "") (hostsReaders cfg) \/
   exists pre reader post,
     hostsReaders cfg = pre ++ reader :: post /\
     Forall (fun rd : HostsReader =>
               rd hostname (Qtype question) = "" /\
               rd (Name question) (Qtype question) = "") pre /\
     recordOf reader hostname (Name question) (Qtype question) <> "").
Proof.
  intros Hq Hcount Hty Hdrop.
  set (name := Name question) in *. set (qt := Qtype question) in *.
  assert (Haddr : N.eqb qt TypeA || N.eqb qt TypeAAAA = true).
  { destruct Hty as [->| ->]; reflexivity. }
  split; [|split; [|apply readers_first_record]].
  - intros pre reader post Hreaders Hpre Hrec.
    exists (missLookups 0 (length pre) hostname name qt ++
            hitLookups (length pre) reader hostname name qt).
    eexists. split; [|split; [|split; [reflexivity|]]].
    + unfold ServeDNS, withDefer, ServeDNS_body. rewrite Hq.
      fold name. fold qt.
      assert ((1 <? strings.Count name ".ne-")%nat = false) as ->
        by (apply Nat.ltb_ge; lia).
      rewrite Haddr.
      unfold bind at 1. rewrite Hreaders.
      rewrite (hostsLoop_hit env pre reader post 0 question hostname _
                 Hdrop Hpre Hrec).
      fold name. fold qt. simpl.
      destruct (NewRR env _) as [rr|err]; simpl; run_step;
        unfold ServeDNS_deferred; run_step; flatten_trace; reflexivity.
    + unfold genRecordCalls. rewrite omap_app.
      fold (genRecordCalls (missLookups 0 (length pre) hostname name qt)).
      rewrite genRecordCalls_missLookups. f_equal.
      unfold hitLookups. by destruct (String.eqb _ _).
    + apply Forall_app. split; [apply Forall_app; split|].
      * apply missLookups_quiet.
      * apply hitLookups_quiet.
      * destruct (NewRR env _); repeat constructor.
  - intros Hall.
    set (lookups := missLookups 0 (length (hostsReaders cfg)) hostname name qt).
    assert (Hhosts :
      (if N.eqb (Qtype question) TypeA || N.eqb (Qtype question) TypeAAAA
       then hostsLoop env (hostsReaders cfg) 0 question
       else ret false) (mkFrame None w) =
        (Ok false,
         mkFrame None (mkWorld (trace w ++ lookups) (httpClientTransport w)))).
    { fold qt. rewrite Haddr.
      apply (hostsLoop_miss env _ 0 question hostname (mkFrame None w) Hdrop Hall). }
    rewrite (ServeDNS_past_hosts env cfg request question rest w lookups
               Hq Hcount Hhosts).
    cbv zeta.
    set (cached := CacheLookup env (trace w ++ lookups) question (Extra request)).
    set (f2 := mkFrame cached _).
    set (P := fun e : Event => genRecordCallOf e = None).
    assert (Ho : orderly P
                   (withDefer
                      (if isSome cached
                       then liftW (logPrint (LogHitCache (Name question)))
                       else routeAndDispatch env cfg question request)
                      (ServeDNS_deferred request))).
    { apply orderly_withDefer.
      - destruct (isSome cached).
        + by apply orderly_liftW, orderly_logPrint.
        + apply orderly_routeAndDispatch. intros e He. by destruct e.
      - by apply orderly_ServeDNS_deferred. }
    destruct (Ho f2) as (tail & Ht & HP & _ & Hx).
    destruct (withDefer _ _ f2) as [res f'] eqn:Erun.
    unfold traceOf, Frame_Traced in Ht. simpl in Ht, Hx.
    exists res, (world f'), lookups, tail.
    split; [done|]. split.
    { rewrite Ht. by rewrite <- !app_assoc. }
    split; [apply genRecordCalls_missLookups|].
    split; [apply missLookups_quiet|].
    split; [by apply Forall_omap_nil|done].
Qed.

Lemma ServeDNS_hosts_shortcut_witness :
  (exists lookups ending,
     ServeDNS envUp sampleConfig (sampleRequest "router." TypeA) world0 =
       (Ok tt, mkWorld ([] ++ lookups ++ ending) None) /\
     genRecordCalls lookups = [(0%nat, "router"); (0%nat, "router.")] /\
     ending =
       [EvLog (LogMatchHosts "router.");
        EvRespWriteMsg
          (SetReply
             (mkMsg 0 false false [] [RR_A "router. 0 IN A 256.0.0.1" 0 2130706433] [])
             (sampleRequest "router." TypeA));
        EvRespClose] /\
     Forall (fun e => isCacheOrDispatch e = false) (lookups ++ ending)) /\
  (exists res w' lookups tail,
     ServeDNS envUp sampleConfig (sampleRequest "example.org." TypeA) world0 =
       (res, w') /\
     trace w' =
       [] ++ lookups ++
       EvCacheGet (mkQuestion "example.org." TypeA ClassINET) [] None :: tail /\
     genRecordCalls lookups = [(0%nat, "example.org"); (0%nat, "example.org.")] /\
     Forall (fun e => isCacheOrDispatch e = false) lookups /\
     genRecordCalls tail = [] /\
     forall c, res <> Exited c).
Proof.
  split.
  - apply (proj1 (ServeDNS_hosts_shortcut envUp sampleConfig
                    (sampleRequest "router." TypeA)
                    (mkQuestion "router." TypeA ClassINET) [] "router" world0
                    eq_refl ltac:(vm_compute; lia) (or_introl eq_refl) eq_refl)
             [] sampleReader []).
    + reflexivity.
    + constructor.
    + vm_compute. discriminate.
  - apply (proj1 (proj2 (ServeDNS_hosts_shortcut envUp sampleConfig
                           (sampleRequest "example.org." TypeA)
                           (mkQuestion "example.org." TypeA ClassINET) []
                           "example.org" world0
                           eq_refl ltac:(vm_compute; lia) (or_introl eq_refl)
                           eq_refl))).
    repeat constructor.
Defined.

(** C7 fails as stated, in three ways.  A non-empty record that does not
    parse is logged and no reply is written.  A name that holds the loop
    marker twice ends the process before any reader is asked, although a
    reader has a record for it.  An empty name makes the handler panic on
    the slice that drops the last character, before any reader is
    asked. *)
Lemma ServeDNS_hosts_record_unparsed :
  (recordOf sampleReader "router" "router." TypeA = "router. 0 IN A 256.0.0.1" /\
   ServeDNS envDown sampleConfig (sampleRequest "router." TypeA) world0 =
     (Ok tt,
      mkWorld
        [EvGenRecord 0 "router" TypeA "";
         EvGenRecord 0 "router." TypeA "router. 0 IN A 256.0.0.1";
         EvLog (LogMakeRRError "bad record");
         EvLog (LogMatchHosts "router.");
         EvRespClose]
        None) /\
   replies (trace (snd (ServeDNS envDown sampleConfig
                          (sampleRequest "router." TypeA) world0))) = []) /\
  (recordOf eagerReader "a.ne-b.ne-c" "a.ne-b.ne-c." TypeA <> "" /\
   ServeDNS envUp eagerConfig (sampleRequest "a.ne-b.ne-c." TypeA) world0 =
     (Exited 1, mkWorld [EvLog LogFatalRecursive] None)) /\
  (eagerReader "" TypeA <> "" /\
   ServeDNS envUp eagerConfig (sampleRequest "" TypeA) world0 =
     (Panicked SliceBoundsOutOfRange, mkWorld [EvRespClose] None)).
Proof.
  split; [|split]; split; try (vm_compute; reflexivity);
    try (vm_compute; discriminate).
  split; vm_compute; reflexivity.
Qed.

(** ** The cache is written after every attempt *)

(** The cache writes of a run of the dispatch loop: one per attempt, and
    the last one carries the response the loop leaves in [r]. *)
Lemma dispatchLoop_writes env question extra dialer servers f :
  exists f' new,
    dispatchLoop env question extra dialer servers f = (Ok tt, f') /\
    trace (world f') = trace (world f) ++ new /\
    (exists n, attempts new = take n servers) /\
    length (cacheWrites new) = length (attempts new) /\
    Forall (fun cw => cw.1 = (question, extra)) (cacheWrites new) /\
    replies new = [] /\
    (servers <> [] ->
     cacheWrites new <> [] /\
     last (cacheWrites new) = Some (question, extra, var_r f')) /\
    (servers = [] -> new = [] /\ var_r f' = var_r f).
Proof.
  destruct (dispatchLoop_run env question extra dialer servers f)
    as (f' & new & rs & Hloop & Htrace & Hat & Hlen & Hcw & _ & Hend).
  exists f', new. rewrite Hcw, Hat.
  split; [done|]. split; [done|].
  split; [by exists (length rs)|].
  split; [by rewrite length_map, length_take, Nat.min_l|].
  split; [by apply List.Forall_map, Forall_true|].
  split.
  { destruct (orderly_dispatchLoop (fun e => replyOf e = None)
                env question extra dialer servers) with (s := f)
      as (new' & Ht & HP & _).
    { intros e He. by destruct e. }
    { done. }
    rewrite Hloop in Ht. unfold traceOf, Frame_Traced in Ht. simpl in Ht.
    rewrite Htrace in Ht. apply app_inv_head in Ht. subst new'.
    by apply Forall_omap_nil. }
  split.
  - intros Hne.
    destruct servers as [|server rest]; [done|].
    destruct Hend as [[-> Hr]|(n & m & -> & Hr)].
    + rewrite Hr. simpl length.
      rewrite replicate_S_end, List.map_app. simpl.
      split; [by intros [_ ?]%app_eq_nil|by rewrite last_snoc].
    + rewrite List.map_app. simpl.
      split; [by intros [_ ?]%app_eq_nil|by rewrite last_snoc, Hr].
  - intros ->. simpl in Hloop. unfold ret in Hloop.
    injection Hloop as <-. split; [|done].
    rewrite <- (app_nil_r (trace (world f))) in Htrace at 1.
    by apply app_inv_head in Htrace.
Qed.

(** Routing and dispatch for a request whose routed group exists. *)
Lemma routeAndDispatch_known env cfg question request group f :
  Groups cfg !! (routeAt env cfg (trace (world f)) (Name question)).1 = Some group ->
  exists res f' new,
    routeAndDispatch env cfg question request f = (res, f') /\
    trace (world f') = trace (world f) ++ new /\
    (forall c, res <> Exited c) /\
    In (EvLog (LogMatchGroup (Name question)
                 (routeAt env cfg (trace (world f)) (Name question)).1
                 (routeAt env cfg (trace (world f)) (Name question)).2)) new /\
    (exists n, attempts new = take n (DNS group)) /\
    length (cacheWrites new) = length (attempts new) /\
    Forall (fun cw => cw.1 = (question, Extra request)) (cacheWrites new) /\
    replies new = [] /\
    (DNS group <> [] ->
     cacheWrites new <> [] /\
     last (cacheWrites new) = Some (question, Extra request, var_r f')) /\
    (DNS group = [] -> cacheWrites new = [] /\ var_r f' = var_r f).
Proof.
  intros Hgroup. unfold routeAndDispatch.
  unfold bind at 1. unfold liftW at 1.
  destruct (getGroupName_no_cache_write env cfg (Name question) (world f))
    as (new1 & Hroute & Hat1 & Hrep1 & Hcw1).
  rewrite Hroute.
  destruct (routeAt env cfg (trace (world f)) (Name question)) as [g reason].
  simpl in Hgroup.
  unfold bind at 1. unfold liftW at 1, logPrint, emit. simpl.
  rewrite Hgroup.
  set (pre := new1 ++ [EvLog (LogMatchGroup (Name question) g reason)]).
  assert (Hpre_at : attempts pre = []).
  { unfold pre, attempts in *. by rewrite omap_app, Hat1. }
  assert (Hpre_cw : cacheWrites pre = []).
  { unfold pre, cacheWrites in *. by rewrite omap_app, Hcw1. }
  assert (Hpre_rep : replies pre = []).
  { unfold pre, replies in *. by rewrite omap_app, Hrep1. }
  assert (Hpre_in : In (EvLog (LogMatchGroup (Name question) g reason)) pre).
  { unfold pre. apply in_or_app. right. by left. }
  replace ((trace (world f) ++ new1) ++
           [EvLog (LogMatchGroup (Name question) g reason)])
    with (trace (world f) ++ pre) by (unfold pre; by rewrite app_assoc).
  unfold bind at 1.
  set (f1 := mkFrame _ _).
  destruct (dispatchLoop_writes env question (Extra request)
              (Dialer group) (DNS group) f1)
    as (f2 & newd & Hloop & Htr & Hpref & Hlen & Hkey & Hrepd & Hsome & Hnone).
  rewrite Hloop. subst f1. simpl in Htr, Hnone.
  assert (Hshape : forall newi,
            attempts newi = [] -> cacheWrites newi = [] -> replies newi = [] ->
            In (EvLog (LogMatchGroup (Name question) g reason))
               (pre ++ newd ++ newi) /\
            (exists n, attempts (pre ++ newd ++ newi) = take n (DNS group)) /\
            length (cacheWrites (pre ++ newd ++ newi)) =
              length (attempts (pre ++ newd ++ newi)) /\
            Forall (fun cw => cw.1 = (question, Extra request))
                   (cacheWrites (pre ++ newd ++ newi)) /\
            replies (pre ++ newd ++ newi) = [] /\
            (DNS group <> [] ->
             cacheWrites (pre ++ newd ++ newi) <> [] /\
             last (cacheWrites (pre ++ newd ++ newi)) =
               Some (question, Extra request, var_r f2)) /\
            (DNS group = [] ->
             cacheWrites (pre ++ newd ++ newi) = [] /\ var_r f2 = var_r f)).
  { intros newi Hi_at Hi_cw Hi_rep.
    assert (Ea : attempts (pre ++ newd ++ newi) = attempts newd).
    { unfold attempts in *.
      by rewrite !omap_app, Hpre_at, Hi_at, app_nil_r. }
    assert (Ec : cacheWrites (pre ++ newd ++ newi) = cacheWrites newd).
    { unfold cacheWrites in *.
      by rewrite !omap_app, Hpre_cw, Hi_cw, app_nil_r. }
    assert (Er : replies (pre ++ newd ++ newi) = []).
    { unfold replies in *.
      by rewrite !omap_app, Hpre_rep, Hi_rep, Hrepd. }
    rewrite Ea, Ec, Er.
    split; [apply in_or_app; by left|].
    split; [done|]. split; [done|]. split; [done|]. split; [done|].
    split; [done|].
    intros HD. destruct (Hnone HD) as [-> Hv]. done. }
  destruct (IPSet group) as [set|].
  2: { exists (Ok tt), f2, (pre ++ newd ++ []). unfold ret.
       split; [done|].
       split; [by rewrite Htr, app_nil_r, <- app_assoc|].
       split; [discriminate|]. by apply Hshape. }
  unfold bind at 1, get_r at 1.
  destruct (var_r f2) as [m|] eqn:Hm.
  2: { exists (Panicked NilDereference), f2, (pre ++ newd ++ []). unfold panic.
       split; [done|].
       split; [by rewrite Htr, app_nil_r, <- app_assoc|].
       split; [discriminate|]. rewrite Hm. by apply Hshape. }
  unfold liftW.
  destruct (ipsetLoop_run env set (IPSetTTL group) (Answer m) (world f2))
    as (newi & Hrun & _ & Hall).
  rewrite Hrun.
  assert (Hi_at : attempts newi = []).
  { apply Forall_omap_nil. eapply Forall_impl; [exact Hall|].
    intros e He. by destruct e. }
  assert (Hi_rep : replies newi = []).
  { apply Forall_omap_nil. eapply Forall_impl; [exact Hall|].
    intros e He. by destruct e. }
  assert (Hi_cw : cacheWrites newi = []).
  { apply Forall_omap_nil. eapply Forall_impl; [exact Hall|].
    intros e He. by destruct e. }
  eexists (Ok tt), _, (pre ++ newd ++ newi).
  split; [reflexivity|]. simpl.
  split; [by rewrite Htr, <- !app_assoc|].
  split; [discriminate|]. rewrite Hm. by apply Hshape.
Qed.



